(** * Modjo transcripts to Dust: a shallow embedding of
      [src/modjo/modjo-transcripts-to-dust.ts]

    The script pages through the Modjo call-export API, renders every call
    as a text document and upserts it into a Dust datasource through a
    rate limiter.  The pure part (time formatting, document rendering) is
    embedded as functions on strings; the effectful part (HTTP calls,
    console output, the limiter, exceptions) as a state-and-exception monad
    over an explicit world. *)

From Stdlib Require Import ZArith QArith Qround Qabs Qpower Lqa Ascii String.
From Stdlib Require Import Sorted Lia.
From stdpp Require Import base strings list gmap pretty.

Local Open Scope string_scope.

(** ** IEEE 754 binary64, as far as the script uses it

    A finite double is held as the rational it denotes.  Negative zero is
    not kept apart from zero: the script only prints its numbers, and both
    zeros print as [0]. *)
Module Double.

(** [2 ^ e] for an integer exponent of either sign. *)
Definition pow2 (e : Z) : Q := Qpower 2 e.

(** [floor (log2 |x|)] for [x] other than zero. *)
Definition binade (x : Q) : Z :=
  let e := (Z.log2 (Z.abs (Qnum x)) - Z.log2 (Zpos (Qden x)))%Z in
  if Qle_bool (pow2 e) (Qabs x) then e else (e - 1)%Z.

(** The distance between the doubles around [x]: 53 significant bits, and
    the fixed spacing of the subnormals below [2 ^ -1022]. *)
Definition ulp (x : Q) : Q := pow2 (Z.max (binade x) (-1022) - 52).

(** The integer nearest to [x], the even one when two are as near. *)
Definition roundHalfEven (x : Q) : Z :=
  let f := Qfloor x in
  match (x - inject_Z f ?= 1 # 2)%Q with
  | Lt => f
  | Gt => (f + 1)%Z
  | Eq => if Z.even f then f else (f + 1)%Z
  end.

(** Round to nearest, ties to even, onto the doubles, for [x] within their
    range. *)
Definition roundDouble (x : Q) : Q :=
  if Qeq_bool x 0 then 0%Q
  else (inject_Z (roundHalfEven (x / ulp x)) * ulp x)%Q.

(** The rationals that are finite doubles. *)
Definition isDouble (x : Q) : bool :=
  Qeq_bool (roundDouble x) x && Qle_bool (Qabs x) (pow2 1024 - pow2 971).

(** [Number::toString] on an integer-valued double [n]: the
    digits are those of the shortest decimal [s * 10 ^ (N - k)], [s] of [k]
    digits, that denotes [n], the nearest to [n] if there are several;
    they are followed by zeros up to [N = 21] digits and put in exponent
    form beyond.  [candidates] lists the decimals of [k] digits, for the
    sizes [N] next to the number of digits [D] of [n]. *)
Definition digitsOf (n : Z) : Z := Z.of_nat (String.length (pretty n)).

Definition candidates (n D k : Z) : list (Z * Z) :=
  N ← [D; (D + 1)%Z];
  s ← [(n / 10 ^ (N - k))%Z; (n / 10 ^ (N - k) + 1)%Z];
  if ((k <=? N) && (10 ^ (k - 1) <=? s) && (s <? 10 ^ k) &&
      Qeq_bool (roundDouble (inject_Z (s * 10 ^ (N - k)))) (inject_Z n))%Z
  then [(s, N)] else [].

Definition nearer (n k : Z) (a b : Z * Z) : Z * Z :=
  if (Z.abs (a.1 * 10 ^ (a.2 - k) - n) <=? Z.abs (b.1 * 10 ^ (b.2 - k) - n))%Z
  then a else b.

Fixpoint shortest (fuel : nat) (n D k : Z) : option (Z * (Z * Z)) :=
  match fuel with
  | O => None
  | S fuel' =>
      match candidates n D k with
      | c :: cs => Some (k, fold_left (nearer n k) cs c)
      | [] => shortest fuel' n D (k + 1)%Z
      end
  end.

Definition String_head (s : string) : string :=
  match s with
  | "" => ""
  | String c _ => String c ""
  end.

Definition String_tail (s : string) : string :=
  match s with
  | "" => ""
  | String _ rest => rest
  end.

Fixpoint zeros (count : nat) : string :=
  match count with
  | O => ""
  | S count' => "0" +:+ zeros count'
  end.

(** The shortest decimal printed: 17 digits always suffice for a double. *)
Definition shortestToString (n : Z) : string :=
  match shortest 17 n (digitsOf n) 1 with
  | Some (k, (s, N)) =>
      if (N <=? 21)%Z then pretty s +:+ zeros (Z.to_nat (N - k))
      else if (k =? 1)%Z then pretty s +:+ "e+" +:+ pretty (N - 1)%Z
      else String_head (pretty s) +:+ "." +:+ String_tail (pretty s) +:+
           "e+" +:+ pretty (N - 1)%Z
  | None => pretty n
  end.

(** Below [2 ^ 53] every integer is a double, so the shortest decimal
    that denotes [n] is [n] itself. *)
Definition positiveToString (n : Z) : string :=
  if (n <? 2 ^ 53)%Z then pretty n else shortestToString n.

Definition integerToString (n : Z) : string :=
  match n with
  | Z0 => "0"
  | Zpos _ => positiveToString n
  | Zneg p => "-" +:+ positiveToString (Zpos p)
  end.

End Double.

(** ** JavaScript built-ins used by the script

    A string is a sequence of code units; the embedding uses the 8-bit
    code units of [string].  A [number] that the script only prints or
    compares is an integer ([Z]).  A [number] on which it does arithmetic
    (the transcript offsets) is a double: [Math.floor] and [%] are exact
    on finite doubles, [/] rounds its result to the nearest double, and
    printing follows [Number::toString] (module [Double] above). *)
Module JS.

Definition LF : string := String "010"%char "".

(** [Number.prototype.toString] on an integer: decimal digits, with a
    leading minus sign for negative values. *)
Definition Number_toString (n : Z) : string := pretty n.

(** A [number] on which the script does arithmetic: a finite double, an
    infinity or [NaN].  [value Z] holds the numbers with an integer value,
    which is what [Math.floor] returns. *)
Inductive value (A : Type) : Type :=
  | Finite (x : A)
  | Infinity
  | NegInfinity
  | NaN.
Arguments Finite {A} x.
Arguments Infinity {A}.
Arguments NegInfinity {A}.
Arguments NaN {A}.

Definition number : Type := value Q.

Definition Math_floor (x : number) : value Z :=
  match x with
  | Finite q => Finite (Qfloor q)
  | Infinity => Infinity
  | NegInfinity => NegInfinity
  | NaN => NaN
  end.

Definition Math_trunc (x : Q) : Z :=
  if Qle_bool 0 x then Qfloor x else Qceiling x.

(** The [/] operator with a finite right operand [d] of 1 or more (the
    script divides by the literal 60): the quotient of a finite double is
    rounded to the nearest double, and cannot overflow. *)
Definition Number_div (n : number) (d : Q) : number :=
  match n with
  | Finite q => Finite (Double.roundDouble (q / d))
  | Infinity => Infinity
  | NegInfinity => NegInfinity
  | NaN => NaN
  end.

(** The [%] operator with a finite right operand [d] other than zero: the
    remainder of a finite double is exact and takes the sign of the
    dividend; an infinity has no remainder. *)
Definition Number_rem (n : number) (d : Q) : number :=
  match n with
  | Finite q => Finite (q - d * inject_Z (Math_trunc (q / d)))%Q
  | Infinity | NegInfinity | NaN => NaN
  end.

(** [Number.prototype.toString] on a number with an integer value. *)
Definition Double_toString (x : value Z) : string :=
  match x with
  | Finite n => Double.integerToString n
  | Infinity => "Infinity"
  | NegInfinity => "-Infinity"
  | NaN => "NaN"
  end.

Fixpoint String_repeat (s : string) (count : nat) : string :=
  match count with
  | O => ""
  | S count' => s +:+ String_repeat s count'
  end.

(** [String.prototype.padStart]. *)
Definition padStart (targetLength : nat) (padString : string) (s : string)
  : string :=
  let stringLength := String.length s in
  if (targetLength <=? stringLength)%nat then s
  else if String.eqb padString "" then s
  else
    let fillLen := (targetLength - stringLength)%nat in
    substring 0 fillLen (String_repeat padString fillLen) +:+ s.

(** White space code units below 256: TAB, LF, VT, FF, CR, SP, NBSP. *)
Definition isWhiteSpace (c : ascii) : bool :=
  match N_of_ascii c with
  | 9 | 10 | 11 | 12 | 13 | 32 | 160 => true
  | _ => false
  end%N.

Fixpoint trimStart (s : string) : string :=
  match s with
  | "" => ""
  | String c s' => if isWhiteSpace c then trimStart s' else s
  end.

Definition trimEnd (s : string) : string :=
  String.rev (trimStart (String.rev s)).

(** [String.prototype.trim]. *)
Definition trim (s : string) : string := trimEnd (trimStart s).

(** [Array.prototype.join]. *)
Definition join (sep : string) (parts : list string) : string :=
  String.concat sep parts.

(** Truthiness of a [string | null | undefined] value. *)
Definition truthy (v : option string) : bool :=
  match v with
  | Some s => negb (String.eqb s "")
  | None => false
  end.

End JS.
Import JS.

(** ** Data model: [interface ModjoCallExport] *)

Module Topic.
Record t := mk { topicId : Z; name : string }.
End Topic.

Module Speaker.
Record t := mk {
  contactId : option Z;
  userId : option Z;
  email : option string;
  name : string;
  phoneNumber : option string;
  speakerId : Z;
  type : string;
}.
End Speaker.

Module Entry.
Record t := mk {
  startTime : number;
  endTime : number;
  speakerId : Z;
  content : string;
  topics : list Topic.t;
}.
End Entry.

Record Recording := { url : string }.

(** [recording] is declared non-null in the interface, but the script
    guards its use with [if (transcript.relations.recording)], so the
    embedding lets it be absent. *)
Module Relations.
Record t := mk {
  recording : option Recording;
  aiSummary : option string;
  speakers : list Speaker.t;
  transcript : list Entry.t;
}.
End Relations.

Record ModjoCallExport := {
  callId : Z;
  title : string;
  startDate : string;
  duration : Z;
  provider : string;
  language : string;
  callCrmId : option string;
  relations : Relations.t;
}.

(** ** [formatTime] (lines 198-204) *)

Definition formatTime (seconds : number) : string :=
  let minutes := Math_floor (Number_div seconds 60) in
  let remainingSeconds := Math_floor (Number_rem seconds 60) in
  padStart 2 "0" (Double_toString minutes) +:+ ":" +:+
  padStart 2 "0" (Double_toString remainingSeconds).

(** ** The document of a call (lines 136-171 of [upsertToDustDatasource]) *)

Definition documentId (transcript : ModjoCallExport) : string :=
  "modjo-transcript-" +:+ Number_toString (callId transcript).

(** Body of the [speakers.forEach] callback: [content] after one speaker. *)
Definition appendSpeaker (content : string) (speaker : Speaker.t) : string :=
  let content :=
    content +:+ Number_toString (Speaker.speakerId speaker) +:+ ": " +:+
    Speaker.name speaker +:+ " (" +:+ Speaker.type speaker +:+ ")" in
  let content :=
    match Speaker.email speaker with
    | Some email =>
        if truthy (Some email) then content +:+ " - Email: " +:+ email
        else content
    | None => content
    end in
  let content :=
    match Speaker.phoneNumber speaker with
    | Some phoneNumber =>
        if truthy (Some phoneNumber)
        then content +:+ " - Phone: " +:+ phoneNumber
        else content
    | None => content
    end in
  content +:+ LF.

(** [speakers.find((s) => s.speakerId === entry.speakerId)] followed by
    the conditional on its result. *)
Definition speakerName (speakers : list Speaker.t) (entry : Entry.t) : string :=
  let speaker :=
    List.find (fun s => Z.eqb (Speaker.speakerId s) (Entry.speakerId entry))
              speakers in
  match speaker with
  | Some speaker => Speaker.name speaker
  | None => "Speaker " +:+ Number_toString (Entry.speakerId entry)
  end.

(** Body of the [transcript.forEach] callback: [content] after one entry. *)
Definition appendEntry (speakers : list Speaker.t) (content : string)
    (entry : Entry.t) : string :=
  let speakerName := speakerName speakers entry in
  let content :=
    content +:+ "[" +:+ formatTime (Entry.startTime entry) +:+ " - " +:+
    formatTime (Entry.endTime entry) +:+ "] " +:+ speakerName +:+ ": " +:+
    Entry.content entry +:+ LF in
  let content :=
    if (0 <? length (Entry.topics entry))%nat
    then content +:+ "Topics: " +:+
         join ", " (map Topic.name (Entry.topics entry)) +:+ LF
    else content in
  content +:+ LF.

(** The value of the variable [content] when the request is built. *)
Definition renderContent (transcript : ModjoCallExport) : string :=
  let content := "Call ID: " +:+ Number_toString (callId transcript) +:+ LF in
  let content := content +:+ "Title: " +:+ title transcript +:+ LF in
  let content := content +:+ "Date: " +:+ startDate transcript +:+ LF in
  let content :=
    content +:+ "Duration: " +:+ Number_toString (duration transcript) +:+
    " seconds" +:+ LF in
  let content := content +:+ "Provider: " +:+ provider transcript +:+ LF in
  let content := content +:+ "Language: " +:+ language transcript +:+ LF in
  let content :=
    match callCrmId transcript with
    | Some crmId =>
        if truthy (Some crmId) then content +:+ "CRM ID: " +:+ crmId +:+ LF
        else content
    | None => content
    end in
  let content :=
    match Relations.recording (relations transcript) with
    | Some recording => content +:+ "Recording URL: " +:+ url recording +:+ LF
    | None => content
    end in
  let content :=
    match Relations.aiSummary (relations transcript) with
    | Some summary =>
        if truthy (Some summary)
        then content +:+ "AI Summary: " +:+ summary +:+ LF
        else content
    | None => content
    end in
  let content := content +:+ LF +:+ "Speakers:" +:+ LF in
  let content :=
    fold_left appendSpeaker (Relations.speakers (relations transcript))
              content in
  let content := content +:+ LF +:+ "Transcript:" +:+ LF in
  let content :=
    fold_left (appendEntry (Relations.speakers (relations transcript)))
              (Relations.transcript (relations transcript)) content in
  content.

(** The [text] field of the request body: [content.trim()]. *)
Definition documentText (transcript : ModjoCallExport) : string :=
  trim (renderContent transcript).

(** ** The outside world

    The two remote services are state machines of an arbitrary state type:
    a request moves the state, takes some time and is answered or fails.
    [modjo_post st page perPage] is [modjoApi.post("/v1/calls/exports", ...)]
    (the date filter and the relation flags of the request body are
    constants of the script and are left out of the request);
    [dust_post st path text] is [dustApi.post(path, { text })].
    [timer_lag] is how late the limiter's timer fires. *)

(** What an [await] can throw: an axios error, carrying the body of the
    response when the server answered, or anything else. *)
Inductive Thrown :=
| AxiosError (response : option string)
| OtherError (message : string).

Record Pagination := { totalValues : Z; lastPage : Z }.

(** [response.data] of a page request. *)
Record ExportPage := {
  pagination : Pagination;
  values : list ModjoCallExport;
}.

Record Remote := {
  St : Type;
  modjo_post : St -> Z -> Z -> St * N * (Thrown + ExportPage);
  dust_post : St -> string -> string -> St * N * (Thrown + unit);
  timer_lag : St -> N;
}.

Inductive Request :=
| ModjoExport (page perPage : Z)
| DustUpsert (path text : string).

(** The second argument of [console.error]: [error.response.data] or the
    error itself. *)
Inductive LogArg :=
| ResponseData (data : string)
| ErrorValue (error : Thrown).

(** What a run does that can be seen from outside, oldest first.  An HTTP
    call is recorded with the time it was sent and the time it settled. *)
Inductive Event :=
| HttpPost (sent settled : N) (request : Request) (ok : bool)
| ConsoleLog (line : string)
| ConsoleError (line : string) (arg : LogArg).

(** Modelled from the spec: the [Bottleneck] limiter, a dependency of the
    script whose code is not part of it.  The spec (4.4, 5) describes the
    gate as admitting at most [maxConcurrent] jobs in flight and leaving at
    least [minTime] between two launches, in submission order;
    [nextRequest] is the earliest time of the next launch and [running] the
    number of jobs in flight. *)
Record Bottleneck := {
  minTime : N;
  maxConcurrent : nat;
  nextRequest : N;
  running : nat;
}.

(** [new Bottleneck({ minTime: 500, maxConcurrent: 1 })] (lines 48-51). *)
Definition newLimiter (now : N) : Bottleneck :=
  {| minTime := 500; maxConcurrent := 1; nextRequest := now; running := 0 |}.

Inductive Result (A : Type) :=
| Returned (a : A)
| Threw (error : Thrown).
Arguments Returned {A} a.
Arguments Threw {A} error.

(** ** The script as a program over the world *)

Section Script.

Variable R : Remote.
(** [process.env.DUST_WORKSPACE_ID] and [process.env.DUST_DATASOURCE_ID];
    the script refuses to start without them (lines 13-22). *)
Variables DUST_WORKSPACE_ID DUST_DATASOURCE_ID : string.

Record World := mkWorld {
  remote : St R;
  clock : N;
  limiter : Bottleneck;
  trace : list Event;
}.

(** A computation runs from a world to a world and either returns or
    throws; [None] is a computation that never settles. *)
Definition M (A : Type) : Type := World -> option (World * Result A).

#[local] Instance M_ret : MRet M := fun A a w => Some (w, Returned a).

#[local] Instance M_bind : MBind M := fun A B k m w =>
  match m w with
  | None => None
  | Some (w', Returned a) => k a w'
  | Some (w', Threw error) => Some (w', Threw error)
  end.

Definition never {A} : M A := fun _ => None.

(** [try { body } catch (error) { handler }]. *)
Definition tryCatch {A} (body : M A) (handler : Thrown -> M A) : M A :=
  fun w =>
    match body w with
    | None => None
    | Some (w', Returned a) => Some (w', Returned a)
    | Some (w', Threw error) => handler error w'
    end.

Definition emit (e : Event) : M unit := fun w =>
  Some (mkWorld (remote w) (clock w) (limiter w) (trace w ++ [e]),
        Returned tt).

Definition console_log (line : string) : M unit := emit (ConsoleLog line).

Definition console_error (line : string) (arg : LogArg) : M unit :=
  emit (ConsoleError line arg).

(** [console.error(line, error.response.data)] when the error is an axios
    error with a response, [console.error(line, error)] otherwise. *)
Definition reportError (line : string) (error : Thrown) : M unit :=
  match error with
  | AxiosError (Some data) => console_error line (ResponseData data)
  | _ => console_error line (ErrorValue error)
  end.

Definition settle {A} (reply : Thrown + A) : Result A :=
  match reply with
  | inl error => Threw error
  | inr a => Returned a
  end.

Definition succeeded {A} (reply : Thrown + A) : bool :=
  match reply with
  | inl _ => false
  | inr _ => true
  end.

(** [await modjoApi.post("/v1/calls/exports", { pagination, ... })]. *)
Definition modjoApi_post (page perPage : Z) : M ExportPage := fun w =>
  let '(st', elapsed, reply) := modjo_post R (remote w) page perPage in
  let settled := (clock w + elapsed)%N in
  Some (mkWorld st' settled (limiter w)
          (trace w ++ [HttpPost (clock w) settled (ModjoExport page perPage)
                                (succeeded reply)]),
        settle reply).

(** [dustApi.post(path, { text })]. *)
Definition dustApi_post (path text : string) : M unit := fun w =>
  let '(st', elapsed, reply) := dust_post R (remote w) path text in
  let settled := (clock w + elapsed)%N in
  Some (mkWorld st' settled (limiter w)
          (trace w ++ [HttpPost (clock w) settled (DustUpsert path text)
                                (succeeded reply)]),
        settle reply).

Definition launched (at_ : N) (lim : Bottleneck) : Bottleneck :=
  {| minTime := minTime lim; maxConcurrent := maxConcurrent lim;
     nextRequest := (at_ + minTime lim)%N; running := S (running lim) |}.

Definition finished (lim : Bottleneck) : Bottleneck :=
  {| minTime := minTime lim; maxConcurrent := maxConcurrent lim;
     nextRequest := nextRequest lim; running := pred (running lim) |}.

(** Modelled from the spec: [limiter.schedule(job)].  The job is launched
    once fewer than [maxConcurrent] jobs are in flight and [nextRequest]
    has passed; the script awaits every call before making the next, so a
    job submitted while the lane is full would wait for ever. *)
Definition limiter_schedule {A} (job : M A) : M A := fun w =>
  let lim := limiter w in
  if (maxConcurrent lim <=? running lim)%nat then None
  else
    let launch :=
      (N.max (clock w) (nextRequest lim) + timer_lag R (remote w))%N in
    match job (mkWorld (remote w) launch (launched launch lim) (trace w)) with
    | None => None
    | Some (w', outcome) =>
        Some (mkWorld (remote w') (clock w') (finished (limiter w'))
                      (trace w'),
              outcome)
    end.

(** *** [getModjoTranscripts] (lines 85-133) *)

Definition perPage : Z := 50.

(** One turn of the [do { try { ... } catch { ... } } while (true)] loop
    yields whether to go round again, and the loop variables. *)
Fixpoint pageLoop (fuel : nat) (page : Z)
    (allTranscripts : list ModjoCallExport) : M (list ModjoCallExport) :=
  match fuel with
  | O => never
  | S fuel' =>
      '(again, page, allTranscripts) ←
        tryCatch
          (response ← modjoApi_post page perPage;
           let allTranscripts := (allTranscripts ++ values response)%list in
           console_log
             ("Retrieved " +:+
              Number_toString (Z.of_nat (length (values response))) +:+
              " transcripts. Total: " +:+
              Number_toString (Z.of_nat (length allTranscripts)));;
           if (page >=? lastPage (pagination response))%Z
           then mret (false, page, allTranscripts)
           else mret (true, (page + 1)%Z, allTranscripts))
          (fun error =>
             reportError "Error fetching Modjo transcripts:" error;;
             mret (false, page, allTranscripts));
      if again : bool then pageLoop fuel' page allTranscripts
      else mret allTranscripts
  end.

Definition getModjoTranscripts (fuel : nat) : M (list ModjoCallExport) :=
  pageLoop fuel 1 [].

(** *** [upsertToDustDatasource] (lines 135-196) *)

Definition documentPath (documentId : string) : string :=
  "/w/" +:+ DUST_WORKSPACE_ID +:+ "/data_sources/" +:+ DUST_DATASOURCE_ID +:+
  "/documents/" +:+ documentId.

Definition upsertToDustDatasource (transcript : ModjoCallExport) : M unit :=
  let documentId := documentId transcript in
  let content := renderContent transcript in
  tryCatch
    (limiter_schedule (dustApi_post (documentPath documentId) (trim content));;
     console_log
       ("Upserted transcript " +:+ Number_toString (callId transcript) +:+
        " to Dust datasource"))
    (fun error =>
       reportError
         ("Error upserting transcript " +:+
          Number_toString (callId transcript) +:+ " to Dust datasource:")
         error).

(** *** [main] (lines 206-219) *)

(** [for (const transcript of transcripts) await body(transcript)]. *)
Fixpoint forOf {A} (items : list A) (body : A -> M unit) : M unit :=
  match items with
  | [] => mret tt
  | item :: rest => body item;; forOf rest body
  end.

Definition main (fuel : nat) : M unit :=
  tryCatch
    (transcripts ← getModjoTranscripts fuel;
     console_log
       ("Found " +:+ Number_toString (Z.of_nat (length transcripts)) +:+
        " transcripts.");;
     forOf transcripts upsertToDustDatasource;;
     console_log "All transcripts processed successfully.")
    (fun error => console_error "An error occurred:" (ErrorValue error)).

(** The world in which the script starts: the limiter is created at load
    time and nothing has happened yet. *)
Definition boot (st : St R) (now : N) : World :=
  mkWorld st now (newLimiter now) [].

End Script.


Arguments mkWorld {R} remote clock limiter trace.
Arguments remote {R} w.
Arguments clock {R} w.
Arguments limiter {R} w.
Arguments trace {R} w.
Arguments never {R A} w.
Arguments tryCatch {R A} body handler w.
Arguments emit {R} e w.
Arguments console_log {R} line w.
Arguments console_error {R} line arg w.
Arguments reportError {R} line error w.
Arguments modjoApi_post {R} page perPage w.
Arguments dustApi_post {R} path text w.
Arguments limiter_schedule {R A} job w.
Arguments pageLoop {R} fuel page allTranscripts w.
Arguments getModjoTranscripts {R} fuel w.
Arguments upsertToDustDatasource {R} DUST_WORKSPACE_ID DUST_DATASOURCE_ID
  transcript w.
Arguments forOf {R A} items body w.
Arguments main {R} DUST_WORKSPACE_ID DUST_DATASOURCE_ID fuel w.
Arguments boot {R} st now.


(** ** Start-up (lines 5-22 and 221)

    [process.env] is a finite map from names to strings.  The module body
    reads the five settings, throws when a required one is missing or
    empty, and otherwise calls [main]. *)
Module Config.
Record t := mk {
  MODJO_BASE_URL : string;
  MODJO_API_KEY : string;
  DUST_API_KEY : string;
  DUST_WORKSPACE_ID : string;
  DUST_DATASOURCE_ID : string;
}.
End Config.

Definition missingConfigMessage : string :=
  "Please provide values for MODJO_API_KEY, DUST_API_KEY, DUST_WORKSPACE_ID, and DUST_DATASOURCE_ID in .env file.".

(** [a || b] on a [string | undefined] and a string. *)
Definition orElse (v : option string) (fallback : string) : string :=
  match v with
  | Some s => if truthy (Some s) then s else fallback
  | None => fallback
  end.

Definition loadConfig (env : gmap string string) : Thrown + Config.t :=
  let MODJO_BASE_URL := orElse (env !! "MODJO_BASE_URL") "https://api.modjo.ai" in
  let MODJO_API_KEY := env !! "MODJO_API_KEY" in
  let DUST_API_KEY := env !! "DUST_API_KEY" in
  let DUST_WORKSPACE_ID := env !! "DUST_WORKSPACE_ID" in
  let DUST_DATASOURCE_ID := env !! "DUST_DATASOURCE_ID" in
  if negb (truthy MODJO_API_KEY) || negb (truthy DUST_API_KEY) ||
     negb (truthy DUST_WORKSPACE_ID) || negb (truthy DUST_DATASOURCE_ID)
  then inl (OtherError missingConfigMessage)
  else
    inr (Config.mk MODJO_BASE_URL (default "" MODJO_API_KEY)
           (default "" DUST_API_KEY) (default "" DUST_WORKSPACE_ID)
           (default "" DUST_DATASOURCE_ID)).

(** The whole module: the guard, then [main()].  When the guard throws,
    nothing else has run. *)
Definition program {R : Remote} (env : gmap string string) (fuel : nat)
    (st : St R) (now : N) : option (World R * Result unit) :=
  match loadConfig env with
  | inl error => Some (boot st now, Threw error)
  | inr config =>
      main (Config.DUST_WORKSPACE_ID config) (Config.DUST_DATASOURCE_ID config)
           fuel (boot st now)
  end.

(** ** Vocabulary of the statements *)

(** *** Time formatter (spec 4.1, 8) *)

(** The decimal rendering of [n], left-padded with zeros to at least
    [width] digits. *)
Definition zeroPadded (width : nat) (n : Z) : string :=
  String_repeat "0" (width - String.length (Number_toString n)) +:+
  Number_toString n.

(** [x mod d] on the reals. *)
Definition floorMod (x d : Q) : Q := (x - d * inject_Z (Qfloor (x / d)))%Q.

(** The first double at which the rounded quotient [s / 60] reaches the
    next whole number: [2 ^ 50] minutes and 56 seconds.  Doubles of this
    size are multiples of 8, and quotients of this size multiples of
    [1 / 4]. *)
Definition formatTimeHorizon : Z := 60 * 2 ^ 50 + 56.

(** The offsets that [formatTime] prints as minutes and seconds: the
    doubles from 0 to below the horizon. *)
Definition safeSeconds (s : Q) : Prop :=
  Double.isDouble s = true ∧ (0 <= s)%Q ∧ (s < inject_Z formatTimeHorizon)%Q.

(** *** Document renderer (spec 4.2) *)

Definition concatAll (parts : list string) : string :=
  foldr String.append "" parts.

Definition whenTruthy (field : option string) (render : string -> string)
  : string :=
  match field with
  | Some v => if String.eqb v "" then "" else render v
  | None => ""
  end.

Definition crmLine (t : ModjoCallExport) : string :=
  whenTruthy (callCrmId t) (fun v => "CRM ID: " +:+ v +:+ LF).

Definition recordingLine (t : ModjoCallExport) : string :=
  match Relations.recording (relations t) with
  | Some r => "Recording URL: " +:+ url r +:+ LF
  | None => ""
  end.

Definition summaryLine (t : ModjoCallExport) : string :=
  whenTruthy (Relations.aiSummary (relations t))
             (fun v => "AI Summary: " +:+ v +:+ LF).

Definition headerBlock (t : ModjoCallExport) : string :=
  "Call ID: " +:+ Number_toString (callId t) +:+ LF +:+
  "Title: " +:+ title t +:+ LF +:+
  "Date: " +:+ startDate t +:+ LF +:+
  "Duration: " +:+ Number_toString (duration t) +:+ " seconds" +:+ LF +:+
  "Provider: " +:+ provider t +:+ LF +:+
  "Language: " +:+ language t +:+ LF +:+
  crmLine t +:+ recordingLine t +:+ summaryLine t.

Definition emailPart (s : Speaker.t) : string :=
  whenTruthy (Speaker.email s) (fun v => " - Email: " +:+ v).

Definition phonePart (s : Speaker.t) : string :=
  whenTruthy (Speaker.phoneNumber s) (fun v => " - Phone: " +:+ v).

Definition speakerLine (s : Speaker.t) : string :=
  Number_toString (Speaker.speakerId s) +:+ ": " +:+ Speaker.name s +:+
  " (" +:+ Speaker.type s +:+ ")" +:+ emailPart s +:+ phonePart s +:+ LF.

Definition speakersBlock (t : ModjoCallExport) : string :=
  LF +:+ "Speakers:" +:+ LF +:+
  concatAll (speakerLine <$> Relations.speakers (relations t)).

Definition topicsLine (e : Entry.t) : string :=
  match Entry.topics e with
  | [] => ""
  | topics => "Topics: " +:+ join ", " (Topic.name <$> topics) +:+ LF
  end.

(** The lines of one transcript entry, for a given speaker name. *)
Definition entryLines (name : string) (e : Entry.t) : string :=
  "[" +:+ formatTime (Entry.startTime e) +:+ " - " +:+
  formatTime (Entry.endTime e) +:+ "] " +:+ name +:+ ": " +:+
  Entry.content e +:+ LF +:+ topicsLine e +:+ LF.

Definition entryBlock (speakers : list Speaker.t) (e : Entry.t) : string :=
  entryLines (speakerName speakers e) e.

Definition transcriptBlock (t : ModjoCallExport) : string :=
  LF +:+ "Transcript:" +:+ LF +:+
  concatAll (entryBlock (Relations.speakers (relations t)) <$>
             Relations.transcript (relations t)).

Fixpoint allWhiteSpace (s : string) : bool :=
  match s with
  | "" => true
  | String c s' => isWhiteSpace c && allWhiteSpace s'
  end.

Definition startsClean (s : string) : Prop :=
  match s with
  | "" => True
  | String c _ => isWhiteSpace c = false
  end.

Definition endsClean (s : string) : Prop := startsClean (String.rev s).

(** [out] is [raw] without its leading and trailing white space. *)
Definition trimmedFrom (raw out : string) : Prop :=
  (exists l r, raw = l +:+ out +:+ r /\ allWhiteSpace l = true /\
               allWhiteSpace r = true) /\
  startsClean out /\ endsClean out.

(** [line] is in the document only if [field] is there, and is then the
    rendering of its value. *)
Definition onlyIfPresent (field : option string) (line : string)
    (render : string -> string) : Prop :=
  (field = None -> line = "") /\
  (line <> "" -> exists v, field = Some v /\ line = render v).

(** Records that differ from [t] or [s] in one field. *)
Definition withCallCrmId (v : option string) (t : ModjoCallExport)
  : ModjoCallExport :=
  {| callId := callId t; title := title t; startDate := startDate t;
     duration := duration t; provider := provider t; language := language t;
     callCrmId := v; relations := relations t |}.

Definition withSpeakers (l : list Speaker.t) (t : ModjoCallExport)
  : ModjoCallExport :=
  {| callId := callId t; title := title t; startDate := startDate t;
     duration := duration t; provider := provider t; language := language t;
     callCrmId := callCrmId t;
     relations :=
       Relations.mk (Relations.recording (relations t))
                    (Relations.aiSummary (relations t)) l
                    (Relations.transcript (relations t)) |}.

Definition withEmail (v : option string) (s : Speaker.t) : Speaker.t :=
  Speaker.mk (Speaker.contactId s) (Speaker.userId s) v (Speaker.name s)
             (Speaker.phoneNumber s) (Speaker.speakerId s) (Speaker.type s).

Definition withPhoneNumber (v : option string) (s : Speaker.t) : Speaker.t :=
  Speaker.mk (Speaker.contactId s) (Speaker.userId s) (Speaker.email s)
             (Speaker.name s) v (Speaker.speakerId s) (Speaker.type s).

(** *** What a trace shows *)

Definition modjoRequest (e : Event) : option (Z * Z) :=
  match e with
  | HttpPost _ _ (ModjoExport page perPage) _ => Some (page, perPage)
  | _ => None
  end.

Definition dustRequest (e : Event) : option (string * string) :=
  match e with
  | HttpPost _ _ (DustUpsert path text) _ => Some (path, text)
  | _ => None
  end.

(** When an upsert request was sent and when it settled. *)
Definition upsertFlight (e : Event) : option (N * N) :=
  match e with
  | HttpPost sent settled (DustUpsert _ _) _ => Some (sent, settled)
  | _ => None
  end.

Definition consoleOutput (e : Event) : option Event :=
  match e with
  | HttpPost _ _ _ _ => None
  | _ => Some e
  end.

(** The pages asked of Modjo, the documents sent to Dust, the flights of
    the upsert requests and the console lines, each in order. *)
Definition modjoRequests (tr : list Event) : list (Z * Z) :=
  omap modjoRequest tr.

Definition dustRequests (tr : list Event) : list (string * string) :=
  omap dustRequest tr.

Definition upsertFlights (tr : list Event) : list (N * N) :=
  omap upsertFlight tr.

Definition consoleLines (tr : list Event) : list Event :=
  omap consoleOutput tr.

(** The requests for pages [first], [first + 1], ... ([count] of them). *)
Definition pagesFrom (first : Z) (count : nat) : list (Z * Z) :=
  (fun i => ((first + Z.of_nat i)%Z, 50%Z)) <$> seq 0 count.

(** Flight [a] has settled before [b] is sent, and [b] is sent at least
    [gap] after [a] was. *)
Definition apart (gap : N) (a b : N * N) : Prop :=
  (a.2 <= b.1)%N /\ (a.1 + gap <= b.1)%N.

(** Modelled from the spec: the Dust datasource, a service outside the
    script.  The spec (3, "Destination Document") keys a document by its
    derived identifier and replaces it wholesale on each upsert; the store
    maps the path of a request to the text last sent there. *)
Definition storeUpsert (store : gmap string string) (req : string * string)
  : gmap string string :=
  <[req.1 := req.2]> store.

Definition replay (reqs : list (string * string)) (store : gmap string string)
  : gmap string string :=
  fold_left storeUpsert reqs store.

Section Vocabulary.

Variable R : Remote.
Variables DUST_WORKSPACE_ID DUST_DATASOURCE_ID : string.

(** The answers of Modjo to [count] requests for the pages [page],
    [page + 1], ..., made one after the other from state [st]. *)
Fixpoint modjoReplies (st : St R) (page : Z) (count : nat)
  : list (Thrown + ExportPage) :=
  match count with
  | O => []
  | S count' =>
      let '(st', _, reply) := modjo_post R st page perPage in
      reply :: modjoReplies st' (page + 1) count'
  end.

(** The request that upserts a record. *)
Definition upsertRequest (t : ModjoCallExport) : string * string :=
  (documentPath DUST_WORKSPACE_ID DUST_DATASOURCE_ID (documentId t),
   documentText t).

(** The answers of Dust to the upserts of [ts], made one after the other
    from state [st]. *)
Fixpoint dustReplies (st : St R) (ts : list ModjoCallExport)
  : list (Thrown + unit) :=
  match ts with
  | [] => []
  | t :: rest =>
      let '(st', _, reply) :=
        dust_post R st (upsertRequest t).1 (upsertRequest t).2 in
      reply :: dustReplies st' rest
  end.

(** What [console.error] is given for a caught error. *)
Definition errorArg (error : Thrown) : LogArg :=
  match error with
  | AxiosError (Some data) => ResponseData data
  | _ => ErrorValue error
  end.

(** The console line that ends the upsert of [t]. *)
Definition upsertOutcome (t : ModjoCallExport) (reply : Thrown + unit)
  : Event :=
  match reply with
  | inr _ =>
      ConsoleLog ("Upserted transcript " +:+ Number_toString (callId t) +:+
                  " to Dust datasource")
  | inl error =>
      ConsoleError ("Error upserting transcript " +:+
                    Number_toString (callId t) +:+ " to Dust datasource:")
                   (errorArg error)
  end.

(** The line logged after a page has been added to the accumulator. *)
Definition retrievedLine (resp : ExportPage) (acc : list ModjoCallExport)
  : string :=
  "Retrieved " +:+ Number_toString (Z.of_nat (length (values resp))) +:+
  " transcripts. Total: " +:+
  Number_toString (Z.of_nat (length (acc ++ values resp)%list)).

(** The world after a page request that was answered. *)
Definition afterPage (w : World R) (page : Z) (st : St R) (elapsed : N)
    (resp : ExportPage) (acc : list ModjoCallExport) : World R :=
  mkWorld st (clock w + elapsed)%N (limiter w)
    (trace w ++
     [HttpPost (clock w) (clock w + elapsed)%N (ModjoExport page perPage) true;
      ConsoleLog (retrievedLine resp acc)]).

(** The world after a page request that failed. *)
Definition afterFailure (w : World R) (page : Z) (st : St R) (elapsed : N)
    (error : Thrown) : World R :=
  mkWorld st (clock w + elapsed)%N (limiter w)
    (trace w ++
     [HttpPost (clock w) (clock w + elapsed)%N (ModjoExport page perPage) false;
      ConsoleError "Error fetching Modjo transcripts:" (errorArg error)]).

(** When the limiter launches a job submitted in [w]. *)
Definition launchTime (w : World R) : N :=
  (N.max (clock w) (nextRequest (limiter w)) + timer_lag R (remote w))%N.

(** The world after the upsert of [t], answered by [reply]. *)
Definition afterUpsert (t : ModjoCallExport) (w : World R) (st : St R)
    (elapsed : N) (reply : Thrown + unit) : World R :=
  mkWorld st (launchTime w + elapsed)%N
    {| minTime := minTime (limiter w);
       maxConcurrent := maxConcurrent (limiter w);
       nextRequest := (launchTime w + minTime (limiter w))%N;
       running := running (limiter w) |}
    (trace w ++
     [HttpPost (launchTime w) (launchTime w + elapsed)%N
        (DustUpsert (upsertRequest t).1 (upsertRequest t).2)
        (match reply with inl _ => false | inr _ => true end);
      upsertOutcome t reply]).

(** The lane of the limiter is free, it is configured as in the script,
    and the upserts made so far respect it. *)
Definition gateOpen (w : World R) : Prop :=
  running (limiter w) = 0%nat /\ maxConcurrent (limiter w) = 1%nat /\
  minTime (limiter w) = 500%N /\
  Forall (fun f => (f.1 <= f.2)%N /\ (f.2 <= clock w)%N /\
                   (f.1 + 500 <= nextRequest (limiter w))%N)
         (upsertFlights (trace w)) /\
  StronglySorted (apart 500) (upsertFlights (trace w)).

End Vocabulary.

Arguments modjoReplies {R} st page count.
Arguments dustReplies {R} DUST_WORKSPACE_ID DUST_DATASOURCE_ID st ts.
Arguments gateOpen {R} w.
Arguments afterPage {R} w page st elapsed resp acc.
Arguments afterFailure {R} w page st elapsed error.
Arguments launchTime {R} w.
Arguments afterUpsert {R} DUST_WORKSPACE_ID DUST_DATASOURCE_ID t w st elapsed
  reply.

(** ** A small source and destination, used in the examples

    Modjo holds five calls on three pages; the state of the outside world
    is the number of the page that is down ([0] when all are up).  Dust
    rejects the document of call 2. *)
Module Demo.

Definition call (id : Z) : ModjoCallExport :=
  {| callId := id; title := "Weekly sync";
     startDate := "2024-03-01T09:00:00Z"; duration := 125;
     provider := "aircall"; language := "en"; callCrmId := None;
     relations :=
       Relations.mk None None
         [Speaker.mk None None None "Ada" None 1 "user"]
         [Entry.mk (Finite 0%Q) (Finite 59%Q) 1 "Hello" [];
          Entry.mk (Finite 59%Q) (Finite 125%Q) 7 "Bye"
            [Topic.mk 1 "pricing"]] |}.

Definition batch (page : Z) : list ModjoCallExport :=
  if (page =? 1)%Z then [call 1; call 2]
  else if (page =? 2)%Z then [call 3; call 4]
  else [call 5].

Definition page (n : Z) : ExportPage :=
  {| pagination := {| totalValues := 5; lastPage := 3 |};
     values := batch n |}.

Definition remote : Remote :=
  {| St := Z;
     modjo_post := fun down n _ =>
       (down, 120%N,
        if (n =? down)%Z then inl (AxiosError None)
        else if ((1 <=? n) && (n <=? 3))%Z then inr (page n)
        else inl (AxiosError (Some "no such page")));
     dust_post := fun down path _ =>
       (down, 30%N,
        if String.eqb path "/w/ws/data_sources/ds/documents/modjo-transcript-2"
        then inl (AxiosError (Some "rejected"))
        else inr tt);
     timer_lag := fun _ => 2%N |}.

Definition calls : list ModjoCallExport :=
  [call 1; call 2; call 3; call 4; call 5].

End Demo.

(** The settings that the guard requires. *)
Definition requiredSettings : list string :=
  ["MODJO_API_KEY"; "DUST_API_KEY"; "DUST_WORKSPACE_ID"; "DUST_DATASOURCE_ID"].

(** An environment with the four required settings. *)
Definition Demo_env : gmap string string :=
  <["MODJO_API_KEY" := "mk"]>
    (<["DUST_API_KEY" := "dk"]>
       (<["DUST_WORKSPACE_ID" := "ws"]>
          (<["DUST_DATASOURCE_ID" := "ds"]> ∅))).

(** * Properties *)

(** ** Strings *)

Lemma string_app_cons (x : ascii) (a b : string) :
  String x a +:+ b = String x (a +:+ b).
Proof. reflexivity. Qed.

Lemma string_app_assoc (a b c : string) : (a +:+ b) +:+ c = a +:+ b +:+ c.
Proof.
  induction a as [|x a IH]; [done|]. by rewrite !string_app_cons, IH.
Qed.

Lemma string_app_nil_r (a : string) : a +:+ "" = a.
Proof. induction a as [|x a IH]; [done|]. by rewrite string_app_cons, IH. Qed.

Lemma string_length_app (a b : string) :
  String.length (a +:+ b) = (String.length a + String.length b)%nat.
Proof.
  induction a as [|x a IH]; [done|]. rewrite string_app_cons. simpl.
  by rewrite IH.
Qed.

(** *** Decimal digits *)

Lemma pretty_N_go_length (x : N) (s : string) :
  (String.length s ≤ String.length (pretty_N_go x s))%nat.
Proof.
  revert s. induction (N.lt_wf_0 x) as [x _ IH]. intros s.
  destruct (decide (x = 0)%N) as [->|Hx]; [by rewrite pretty_N_go_0|].
  rewrite pretty_N_go_step by lia.
  etrans; [|apply IH; apply N.div_lt; lia]. simpl. lia.
Qed.

Lemma Number_toString_digit (n : Z) :
  (0 ≤ n < 10)%Z → String.length (Number_toString n) = 1%nat.
Proof.
  intros Hn.
  assert (n = 0 ∨ n = 1 ∨ n = 2 ∨ n = 3 ∨ n = 4 ∨ n = 5 ∨ n = 6 ∨ n = 7
          ∨ n = 8 ∨ n = 9)%Z as Hcases by lia.
  repeat (destruct Hcases as [->|Hcases]; [reflexivity|]).
  by subst.
Qed.

Lemma Number_toString_digits (n : Z) :
  (10 ≤ n)%Z → (2 ≤ String.length (Number_toString n))%nat.
Proof.
  intros Hn. destruct n as [|p|p]; try lia.
  unfold Number_toString, pretty, pretty_Z, pretty, pretty_positive, pretty,
    pretty_N.
  rewrite decide_False by done.
  rewrite pretty_N_go_step by lia.
  rewrite pretty_N_go_step by (apply N.div_str_pos; lia).
  etrans; [|apply pretty_N_go_length]. simpl. lia.
Qed.

(** ** The time formatter *)

Lemma padStart_zero (s : string) :
  padStart 2 "0" s = String_repeat "0" (2 - String.length s) +:+ s.
Proof. by destruct s as [|c [|c' s]]. Qed.

Lemma Qfloor_unique (x : Q) (z : Z) :
  (inject_Z z <= x)%Q → (x < inject_Z (z + 1))%Q → Qfloor x = z.
Proof.
  intros Hle Hlt. apply Z.le_antisymm.
  - apply Z.lt_succ_r. rewrite Zlt_Qlt.
    eapply Qle_lt_trans; [apply Qfloor_le|]. exact Hlt.
  - rewrite <- (Qfloor_Z z). by apply Qfloor_resp_le.
Qed.

Lemma sixtieth_nonneg (s : Q) : (0 <= s)%Q → (0 <= s / 60)%Q.
Proof. intros Hs. apply Qle_shift_div_l; [reflexivity|]. lra. Qed.

Lemma Math_trunc_nonneg (x : Q) : (0 <= x)%Q → Math_trunc x = Qfloor x.
Proof.
  intros Hx. unfold Math_trunc.
  by destruct (Qle_bool 0 x) eqn:E; [|apply Qle_bool_iff in Hx; congruence].
Qed.

Lemma minutes_bounds (s : Q) :
  (0 <= s)%Q →
  (0 ≤ Qfloor (s / 60))%Z ∧
  (0 <= floorMod s 60)%Q ∧ (floorMod s 60 < 60)%Q.
Proof.
  intros Hs. pose proof (sixtieth_nonneg s Hs) as Hq.
  pose proof (Qfloor_le (s / 60)) as Hlo.
  pose proof (Qlt_floor (s / 60)) as Hhi.
  assert (s == 60 * (s / 60))%Q as Hmul by field.
  split.
  - change 0%Z with (Qfloor 0). by apply Qfloor_resp_le.
  - unfold floorMod. rewrite inject_Z_plus in Hhi.
    set (m := inject_Z (Qfloor (s / 60))) in *.
    set (q := (s / 60)%Q) in *. change (inject_Z 1) with 1%Q in Hhi. lra.
Qed.

Lemma Qfloor_sixtieth (s : Q) : Qfloor (s / 60) = (Qfloor s / 60)%Z.
Proof.
  destruct s as [n d]. unfold Qfloor, Qdiv, Qmult, Qinv. simpl.
  rewrite Z.mul_1_r, Pos2Z.inj_mul. by rewrite Z.div_div by lia.
Qed.

Lemma Qfloor_floorMod (s : Q) : Qfloor (floorMod s 60) = (Qfloor s mod 60)%Z.
Proof.
  pose proof (Qfloor_le s) as Hlo. pose proof (Qlt_floor s) as Hhi.
  apply Qfloor_unique; unfold floorMod; rewrite Qfloor_sixtieth;
    rewrite Z.mod_eq by lia.
  all: rewrite ?inject_Z_plus, ?inject_Z_minus, ?inject_Z_mult in *.
  all: unfold Zminus; rewrite ?inject_Z_plus, ?inject_Z_opp, ?inject_Z_mult.
  all: change (inject_Z 60) with 60%Q; change (inject_Z 1) with 1%Q in *.
  all: set (m := inject_Z (Qfloor s / 60)) in *.
  all: set (f := inject_Z (Qfloor s)) in *; lra.
Qed.

Lemma zeroPadded_short (n : Z) :
  (0 ≤ n < 10)%Z → zeroPadded 2 n = "0" +:+ Number_toString n.
Proof. intros Hn. unfold zeroPadded. by rewrite Number_toString_digit. Qed.

Lemma zeroPadded_long (n : Z) :
  (10 ≤ n)%Z → zeroPadded 2 n = Number_toString n.
Proof.
  intros Hn. unfold zeroPadded.
  pose proof (Number_toString_digits n Hn) as Hlen.
  by replace (2 - String.length (Number_toString n))%nat with 0%nat by lia.
Qed.

Lemma Number_toString_two_digits (n : Z) :
  (10 ≤ n < 100)%Z → String.length (Number_toString n) = 2%nat.
Proof.
  intros Hn. destruct n as [|p|p]; try lia.
  unfold Number_toString, pretty, pretty_Z, pretty, pretty_positive, pretty,
    pretty_N.
  rewrite decide_False by done.
  rewrite pretty_N_go_step by lia.
  rewrite pretty_N_go_step by (apply N.div_str_pos; lia).
  replace (N.pos p / 10 / 10)%N with 0%N; [done|].
  symmetry. rewrite N.Div0.div_div. apply N.div_small. lia.
Qed.

Lemma zeroPadded_two_digits (n : Z) :
  (0 ≤ n < 100)%Z → String.length (zeroPadded 2 n) = 2%nat.
Proof.
  intros Hn. destruct (decide (n < 10)%Z).
  - rewrite zeroPadded_short by lia. rewrite string_length_app.
    by rewrite Number_toString_digit by lia.
  - rewrite zeroPadded_long by lia. apply Number_toString_two_digits. lia.
Qed.

(** *** Doubles: the quotient by 60 *)

Lemma pow2_pos (e : Z) : (0 < Double.pow2 e)%Q.
Proof. by apply Qpower_0_lt. Qed.

Lemma pow2_plus (a b : Z) :
  (Double.pow2 (a + b) == Double.pow2 a * Double.pow2 b)%Q.
Proof. by apply Qpower_plus. Qed.

Lemma pow2_le (a b : Z) : (a ≤ b)%Z → (Double.pow2 a <= Double.pow2 b)%Q.
Proof. intros Hab. by apply Qpower_le_compat_l. Qed.

Lemma pow2_lt_inv (a b : Z) : (Double.pow2 a < Double.pow2 b)%Q → (a < b)%Z.
Proof. intros Hab. by apply (Qpower_lt_compat_l_inv 2). Qed.

Lemma pow2_Z (e : Z) : (0 ≤ e)%Z → (Double.pow2 e == inject_Z (2 ^ e))%Q.
Proof. intros He. unfold Double.pow2. by rewrite Zpower_Qpower. Qed.

Lemma pow2_inverse (e : Z) : (Double.pow2 e * Double.pow2 (- e) == 1)%Q.
Proof. rewrite <- pow2_plus, Z.add_opp_diag_r. reflexivity. Qed.

Lemma binade_spec (x : Q) :
  (0 < x)%Q →
  (Double.pow2 (Double.binade x) <= x)%Q ∧
  (x < Double.pow2 (Double.binade x + 1))%Q.
Proof.
  intros Hx. destruct x as [a b].
  assert (0 < a)%Z as Ha by (unfold Qlt in Hx; simpl in Hx; lia).
  unfold Double.binade. simpl Qnum. simpl Qden.
  rewrite (Z.abs_eq a) by lia.
  set (la := Z.log2 a). set (lb := Z.log2 (Z.pos b)).
  destruct (Z.log2_spec a Ha) as [Hla1 Hla2].
  destruct (Z.log2_spec (Z.pos b) eq_refl) as [Hlb1 Hlb2].
  fold la in Hla1, Hla2. fold lb in Hlb1, Hlb2.
  assert (0 ≤ la)%Z as Hla0 by apply Z.log2_nonneg.
  assert (0 ≤ lb)%Z as Hlb0 by apply Z.log2_nonneg.
  rewrite Zle_Qle in Hla1, Hlb1. rewrite Zlt_Qlt in Hla2, Hlb2.
  rewrite <- pow2_Z in Hla1, Hlb1, Hla2, Hlb2 by lia.
  assert (a # b == inject_Z a / inject_Z (Z.pos b))%Q as Hab
    by apply Qmake_Qdiv.
  assert (0 < inject_Z (Z.pos b))%Q as Hb by (unfold Qlt; simpl; lia).
  set (A := inject_Z a) in *. set (B := inject_Z (Z.pos b)) in *.
  set (x := a # b) in *.
  assert (x * B == A)%Q as HxB by (rewrite Hab; field; lra).
  pose proof (pow2_pos lb) as Hplb. pose proof (pow2_pos (la - lb)) as Hpe.
  pose proof (pow2_pos (la - lb - 1)) as Hpe1.
  pose proof (pow2_pos (la - lb + 1)) as Hpe2.
  assert (Double.pow2 la == Double.pow2 (la - lb) * Double.pow2 lb)%Q as E1.
  { rewrite <- pow2_plus. by replace (la - lb + lb)%Z with la by lia. }
  assert (Double.pow2 (Z.succ la) ==
          Double.pow2 (la - lb + 1) * Double.pow2 lb)%Q as E2.
  { rewrite <- pow2_plus. by replace (la - lb + 1 + lb)%Z with (Z.succ la)
      by lia. }
  assert (Double.pow2 la ==
          Double.pow2 (la - lb - 1) * Double.pow2 (Z.succ lb))%Q as E3.
  { rewrite <- pow2_plus.
    by replace (la - lb - 1 + Z.succ lb)%Z with la by lia. }
  rewrite (Qabs_pos x) by lra.
  destruct (Qle_bool (Double.pow2 (la - lb)) x) eqn:Hcmp.
  - apply Qle_bool_iff in Hcmp. split; [done|].
    set (P := Double.pow2 (la - lb + 1)) in *.
    set (L := Double.pow2 lb) in *. set (S := Double.pow2 (Z.succ la)) in *.
    nra.
  - assert (x < Double.pow2 (la - lb))%Q as Hlt.
    { apply Qnot_le_lt. intros Hle. apply Qle_bool_iff in Hle. congruence. }
    replace (la - lb - 1 + 1)%Z with (la - lb)%Z by lia. split; [|done].
    set (P := Double.pow2 (la - lb - 1)) in *.
    set (L := Double.pow2 (Z.succ lb)) in *. set (S := Double.pow2 la) in *.
    nra.
Qed.

Lemma roundHalfEven_bounds (x : Q) :
  (Qfloor x ≤ Double.roundHalfEven x)%Z ∧
  (inject_Z (Double.roundHalfEven x) <= x + (1 # 2))%Q.
Proof.
  pose proof (Qfloor_le x) as Hlo. pose proof (Qlt_floor x) as Hhi.
  rewrite inject_Z_plus in Hhi. change (inject_Z 1) with 1%Q in Hhi.
  unfold Double.roundHalfEven.
  destruct (Qcompare_spec (x - inject_Z (Qfloor x)) (1 # 2)) as [He|Hl|Hg];
    [destruct (Z.even (Qfloor x))|..];
    rewrite ?inject_Z_plus; change (inject_Z 1) with 1%Q;
    (split; [lia|lra]).
Qed.

(** A positive double is a whole number of steps of its binade. *)
Lemma isDouble_steps (s : Q) :
  Double.isDouble s = true → (0 < s)%Q →
  ∃ n : Z, (s == inject_Z n * Double.ulp s)%Q.
Proof.
  intros Hd Hs. unfold Double.isDouble in Hd.
  apply andb_true_iff in Hd as [Hd _]. apply Qeq_bool_iff in Hd.
  unfold Double.roundDouble in Hd.
  destruct (Qeq_bool s 0) eqn:H0.
  - apply Qeq_bool_iff in H0. lra.
  - eexists. symmetry. exact Hd.
Qed.

Lemma Qfloor_between (x : Q) (z : Z) :
  (inject_Z z <= x)%Q → (x < inject_Z z + 1)%Q → Qfloor x = z.
Proof.
  intros Hlo Hhi. apply Qfloor_unique; [done|].
  rewrite inject_Z_plus. by change (inject_Z 1) with 1%Q.
Qed.

Lemma Z_pos_Q_ge_1 (z : Z) : (0 < inject_Z z)%Q → (1 <= inject_Z z)%Q.
Proof.
  intros Hz. change 0%Q with (inject_Z 0) in Hz. rewrite <- Zlt_Qlt in Hz.
  change 1%Q with (inject_Z 1). rewrite <- Zle_Qle. lia.
Qed.

Lemma scaled_bound (N Y U q : Q) :
  (0 < U)%Q → (N <= Y + (1 # 2))%Q → (q == Y * U)%Q →
  (N * U <= q + U * (1 # 2))%Q.
Proof.
  intros HU HN Hq.
  assert (N * U <= (Y + (1 # 2)) * U)%Q as H
    by (apply Qmult_le_compat_r; lra).
  assert ((Y + (1 # 2)) * U == q + U * (1 # 2))%Q as E by (rewrite Hq; field).
  by rewrite <- E.
Qed.

(** A positive whole multiple of a step is at least the step. *)
Lemma multiple_gap (d G : Q) (k : Z) :
  (0 < G)%Q → (0 < d)%Q → (d == inject_Z k * G)%Q → (G <= d)%Q.
Proof.
  intros HG Hd Hk.
  assert (0 < inject_Z k)%Q as Hpos.
  { destruct (Qlt_le_dec 0 (inject_Z k)) as [|Hle]; [done|]. nra. }
  apply Z_pos_Q_ge_1 in Hpos. nra.
Qed.

(** The same with a bound below: a whole multiple of the step above the
    step is at least two steps. *)
Lemma multiple_gap_2 (d G : Q) (k : Z) :
  (0 < G)%Q → (G < d)%Q → (d == inject_Z k * G)%Q → (2 * G <= d)%Q.
Proof.
  intros HG Hd Hk.
  assert (1 < inject_Z k)%Q as Hpos.
  { destruct (Qlt_le_dec 1 (inject_Z k)) as [|Hle]; [done|]. nra. }
  change 1%Q with (inject_Z 1) in Hpos. rewrite <- Zlt_Qlt in Hpos.
  assert (2 <= inject_Z k)%Q
    by (change 2%Q with (inject_Z 2); rewrite <- Zle_Qle; lia).
  nra.
Qed.

Ltac push_inject_Z :=
  unfold Zminus;
  repeat first [rewrite inject_Z_plus | rewrite inject_Z_opp
               | rewrite inject_Z_mult];
  change (inject_Z 1) with 1%Q; change (inject_Z 2) with 2%Q;
  change (inject_Z 15) with 15%Q; change (inject_Z 30) with 30%Q;
  change (inject_Z 60) with 60%Q.

(** Dividing a double below [formatTimeHorizon] by 60 and rounding leaves
    the whole part of the quotient as it is. *)
Lemma floor_div_60 (s : Q) :
  Double.isDouble s = true → (0 <= s)%Q →
  (s < inject_Z formatTimeHorizon)%Q →
  Qfloor (Double.roundDouble (s / 60)) = Qfloor (s / 60).
Proof.
  intros Hd Hs0 Hs53. unfold Double.roundDouble.
  set (q := (s / 60)%Q).
  destruct (Qeq_bool q 0) eqn:Hq0.
  { apply Qeq_bool_iff in Hq0. by rewrite Hq0. }
  apply Qeq_bool_neq in Hq0.
  assert (s == 60 * q)%Q as Hsq by (unfold q; field).
  assert (0 < q)%Q as Hq.
  { assert (0 <= q)%Q by (unfold q; apply Qle_shift_div_l; [reflexivity|lra]).
    destruct (Qlt_le_dec 0 q) as [|Hle]; [done|].
    destruct Hq0. lra. }
  assert (0 < s)%Q as Hs by lra.
  destruct (binade_spec s Hs) as [Hbs1 Hbs2].
  destruct (binade_spec q Hq) as [Hbq1 Hbq2].
  set (bs := Double.binade s) in *. set (bq := Double.binade q) in *.
  (* the binades of [s] and of the quotient *)
  assert (bs ≤ 55)%Z as Hbs.
  { assert (bs < 56)%Z; [|lia]. apply pow2_lt_inv.
    eapply Qle_lt_trans; [exact Hbs1|]. eapply Qlt_trans; [exact Hs53|].
    by vm_compute. }
  assert (bq ≤ bs - 5)%Z as Hbq.
  { assert (bq < bs - 4)%Z; [|lia]. apply pow2_lt_inv.
    assert (Double.pow2 (bs + 1) == 32 * Double.pow2 (bs - 4))%Q as E.
    { replace (bs + 1)%Z with (5 + (bs - 4))%Z by lia. by rewrite pow2_plus. }
    pose proof (pow2_pos (bs - 4)). lra. }
  (* the whole part of a quotient in the last binade *)
  set (m := Qfloor q).
  assert (bq = 50 → 2 ^ 50 ≤ m)%Z as Hm50.
  { intros Hb. rewrite Hb in Hbq1. unfold m.
    rewrite <- (Qfloor_Z (2 ^ 50)). apply Qfloor_resp_le.
    by rewrite <- pow2_Z by lia. }
  (* the step of the quotient, a negative power of two *)
  set (cq := (Z.max bq (-1022) - 52)%Z).
  assert (Double.ulp q = Double.pow2 cq) as Hulp by done.
  rewrite Hulp.
  set (U := Double.pow2 cq). pose proof (pow2_pos cq) as HU. fold U in HU.
  assert (cq ≤ 0)%Z as Hcq by lia.
  pose proof (pow2_inverse cq) as HUT. fold U in HUT.
  pose proof (pow2_Z (- cq) ltac:(lia)) as HT.
  pose proof (pow2_pos (- cq)) as HTpos.
  set (T := Double.pow2 (- cq)) in *.
  assert (U <= Double.pow2 (-2))%Q as HUsmall by (apply pow2_le; lia).
  assert ((bq < -1022)%Z →
          (Double.pow2 (bq + 1) <= Double.pow2 (-2))%Q)
    as Hqsmall by (intros; apply pow2_le; lia).
  assert ((-1022 ≤ bq)%Z →
          (Double.pow2 (cq + 5) <= Double.pow2 (bs - 52))%Q)
    as Hsteps by (intros; apply pow2_le; lia).
  assert (Double.pow2 (cq + 5) == 32 * U)%Q as Hcq5
    by (rewrite Z.add_comm, pow2_plus; reflexivity).
  assert ((bq ≤ 49)%Z → (U <= Double.pow2 (-3))%Q) as HU49
    by (intros; apply pow2_le; lia).
  change (Double.pow2 (-2)) with (1 # 4)%Q in *.
  change (Double.pow2 (-3)) with (1 # 8)%Q in *.
  clearbody U T.
  destruct (roundHalfEven_bounds (q / U)) as [Hn1 Hn2].
  set (n := Double.roundHalfEven (q / U)) in *.
  assert (q / U == q * T)%Q as HqU by (field_simplify_eq; nra).
  pose proof (Qfloor_le q) as Hm1. pose proof (Qlt_floor q) as Hm2.
  fold m in Hm1, Hm2. rewrite inject_Z_plus in Hm2.
  change (inject_Z 1) with 1%Q in Hm2.
  assert (0 ≤ m)%Z as Hm0.
  { unfold m. change 0%Z with (Qfloor 0). apply Qfloor_resp_le. lra. }
  apply Qfloor_between.
  - (* the rounded quotient is not below the whole part *)
    assert (m * 2 ^ (- cq) ≤ n)%Z as Hmn.
    { etrans; [|exact Hn1]. rewrite <- (Qfloor_Z (m * 2 ^ (- cq))).
      apply Qfloor_resp_le. rewrite HqU, inject_Z_mult, <- HT.
      apply Qmult_le_compat_r; lra. }
    rewrite Zle_Qle, inject_Z_mult, <- HT in Hmn.
    set (N := inject_Z n) in *. set (M := inject_Z m) in *.
    assert (M == M * T * U)%Q as ->
      by (rewrite <- Qmult_assoc, (Qmult_comm T), HUT; ring).
    apply Qmult_le_compat_r; lra.
  - (* nor does it reach the next whole number *)
    assert (inject_Z n * U <= q + U * (1 # 2))%Q as Hup.
    { assert (q == q / U * U)%Q as Hq' by (field; lra).
      exact (scaled_bound _ _ _ _ HU Hn2 Hq'). }
    enough (q + U * (1 # 2) < inject_Z m + 1)%Q by lra.
    destruct (Z_lt_le_dec bq (-1022)) as [Hsub|Hnorm].
    + (* subnormal quotient: far below 1 *)
      specialize (Hqsmall Hsub).
      assert (0 <= inject_Z m)%Q
        by (change 0%Q with (inject_Z 0); rewrite <- Zle_Qle; lia).
      pose proof (Qlt_le_trans _ _ _ Hbq2 Hqsmall) as Hq4. lra.
    + (* normal quotient: [s] is some steps of its own below [60 (m + 1)],
         and 30 steps of the quotient are less *)
      destruct (isDouble_steps s Hd Hs) as [ns Hns].
      specialize (Hsteps Hnorm).
      set (cs := (Z.max bs (-1022) - 52)%Z).
      assert (Double.ulp s = Double.pow2 cs) as Hulps by done.
      rewrite Hulps in Hns.
      pose proof (pow2_pos cs) as HG.
      assert (Double.pow2 (bs - 52) <= Double.pow2 cs)%Q as Hbscs
        by (apply pow2_le; lia).
      assert (32 * U <= Double.pow2 cs)%Q as HUG by lra.
      set (d := (60 * (inject_Z m + 1) - s)%Q).
      assert (0 < d)%Q as Hd0 by (unfold d; lra).
      enough (30 * U < d)%Q by (unfold d in *; lra).
      assert (cs ≤ 0 ∨ cs = 1 ∨ cs = 2 ∨ cs = 3 ∧ bq ≤ 50)%Z
        as [Hcs|[Hcs|[Hcs|[Hcs Hbq50]]]] by lia.
      * (* [s] below [2 ^ 53]: its steps divide 1 *)
        pose proof (pow2_inverse cs) as HGT.
        pose proof (pow2_Z (- cs) ltac:(lia)) as HTs.
        pose proof (pow2_pos (- cs)) as HTspos.
        set (G := Double.pow2 cs) in *. set (Ts := Double.pow2 (- cs)) in *.
        clearbody G Ts.
        assert (G <= d)%Q as HGd; [|lra].
        apply (multiple_gap d G (60 * (m + 1) * 2 ^ (- cs) - ns)); [done..|].
        unfold d. rewrite Hns. push_inject_Z. rewrite <- HTs.
        set (NS := inject_Z ns). set (M := inject_Z m).
        assert (Ts * G == 1)%Q as E by (rewrite Qmult_comm; exact HGT).
        transitivity (60 * (M + 1) * (Ts * G) - NS * G)%Q; [rewrite E|]; ring.
      * (* steps of 2 *)
        clearbody cs. subst cs. change (Double.pow2 1) with 2%Q in *.
        assert (2 <= d)%Q as HGd; [|lra].
        apply (multiple_gap d 2 (30 * (m + 1) - ns)); [done..|].
        unfold d. rewrite Hns. push_inject_Z. ring.
      * (* steps of 4 *)
        clearbody cs. subst cs. change (Double.pow2 2) with 4%Q in *.
        assert (4 <= d)%Q as HGd; [|lra].
        apply (multiple_gap d 4 (15 * (m + 1) - ns)); [done..|].
        unfold d. rewrite Hns. push_inject_Z. ring.
      * (* steps of 8: [60 (m + 1) - s] is a multiple of 4 *)
        clearbody cs. subst cs. change (Double.pow2 3) with 8%Q in *.
        assert (d == inject_Z (15 * (m + 1) - 2 * ns) * 4)%Q as Hmult.
        { unfold d. rewrite Hns. push_inject_Z. ring. }
        destruct (Z_le_gt_dec bq 49) as [Hlow|Hhigh].
        -- specialize (HU49 Hlow).
           pose proof (multiple_gap d 4 _ eq_refl Hd0 Hmult). lra.
        -- assert (bq = 50)%Z as Hb by lia. specialize (Hm50 Hb).
           rewrite Zle_Qle in Hm50.
           assert (4 < d)%Q as Hd4.
           { unfold d.
             change (inject_Z formatTimeHorizon)
               with (60 * inject_Z (2 ^ 50) + 56)%Q in Hs53.
             set (P := inject_Z (2 ^ 50)) in *. lra. }
           pose proof (multiple_gap_2 d 4 _ eq_refl Hd4 Hmult). lra.
Qed.

Lemma integerToString_safe (n : Z) :
  (0 ≤ n < 2 ^ 53)%Z → Double.integerToString n = Number_toString n.
Proof.
  intros Hn. unfold Double.integerToString, Double.positiveToString.
  destruct n as [|p|p]; [done| |lia].
  by rewrite (proj2 (Z.ltb_lt _ _)) by lia.
Qed.

(** C2.  For every non-negative double below [60 * 2 ^ 50 + 56] (all those
    below [2 ^ 53] among them), [formatTime] prints the whole minutes
    [floor (s / 60)] in decimal, left-padded with zeros to at least two
    digits, a colon, and the whole seconds [floor (s mod 60)] left-padded
    with zeros to exactly two digits; minutes and seconds are the integer
    quotient and remainder of [floor s] by 60, and a minute count of two or
    more digits is printed as it is. *)
Theorem formatTime_minutes_seconds (seconds : Q) :
  Double.isDouble seconds = true →
  (0 <= seconds)%Q → (seconds < inject_Z formatTimeHorizon)%Q →
  let minutes := Qfloor (seconds / 60) in
  let rest := Qfloor (floorMod seconds 60) in
  formatTime (Finite seconds) =
    zeroPadded 2 minutes +:+ ":" +:+ zeroPadded 2 rest
  ∧ (0 ≤ minutes)%Z ∧ (0 ≤ rest < 60)%Z
  ∧ minutes = (Qfloor seconds / 60)%Z ∧ rest = (Qfloor seconds mod 60)%Z
  ∧ String.length (zeroPadded 2 rest) = 2%nat
  ∧ (2 ≤ String.length (zeroPadded 2 minutes))%nat
  ∧ ((minutes < 10)%Z →
     zeroPadded 2 minutes = "0" +:+ Number_toString minutes)
  ∧ ((10 ≤ minutes)%Z → zeroPadded 2 minutes = Number_toString minutes).
Proof.
  intros Hd Hs Hs53 minutes rest.
  destruct (minutes_bounds seconds Hs) as (Hm & Hlo & Hhi).
  assert (0 ≤ rest < 60)%Z as Hrest.
  { subst rest. rewrite Qfloor_floorMod. apply Z.mod_pos_bound. lia. }
  assert (minutes < 2 ^ 53)%Z as Hm53.
  { subst minutes. rewrite Qfloor_sixtieth.
    assert (Qfloor seconds < formatTimeHorizon)%Z as Hfl.
    { rewrite Zlt_Qlt. eapply Qle_lt_trans; [apply Qfloor_le|done]. }
    apply Z.div_lt_upper_bound; [lia|].
    etrans; [exact Hfl|]. by vm_compute. }
  split_and!.
  - unfold formatTime, Number_div, Number_rem, Math_floor, Double_toString.
    rewrite floor_div_60 by done.
    rewrite Math_trunc_nonneg by by apply sixtieth_nonneg.
    fold (floorMod seconds 60). fold minutes rest.
    rewrite !integerToString_safe by (fold minutes in Hm; lia).
    by rewrite !padStart_zero.
  - done.
  - lia.
  - lia.
  - apply Qfloor_sixtieth.
  - apply Qfloor_floorMod.
  - apply zeroPadded_two_digits. lia.
  - destruct (decide (minutes < 10)%Z).
    + rewrite zeroPadded_short by (fold minutes in Hm; lia).
      rewrite string_length_app. simpl.
      rewrite Number_toString_digit by (fold minutes in Hm; lia). lia.
    + rewrite zeroPadded_long by lia. apply Number_toString_digits. lia.
  - intros Hlt. apply zeroPadded_short. fold minutes in Hm. lia.
  - apply zeroPadded_long.
Qed.

(** At the horizon the rounding of [s / 60] shows: the quotient
    [2 ^ 50 + 56 / 60] lies between the doubles [2 ^ 50 + 3 / 4] and
    [2 ^ 50 + 1], nearer to the second, which [Math.floor] then receives.
    The same happens at [2 ^ 58 + 448].  From [10 ^ 21] minutes on, the
    minutes are not printed in decimal digits. *)
Lemma formatTime_minutes_seconds_counterexample :
  let expected (s : Q) :=
    zeroPadded 2 (Qfloor (s / 60)) +:+ ":" +:+
    zeroPadded 2 (Qfloor (floorMod s 60)) in
  let s := inject_Z formatTimeHorizon in
  let s' := inject_Z (2 ^ 58 + 448) in
  let t := inject_Z (6 * 10 ^ 22) in
  (Double.isDouble s = true ∧ (0 <= s)%Q ∧
   formatTime (Finite s) = "1125899906842625:56" ∧
   expected s = "1125899906842624:56") ∧
  (Double.isDouble s' = true ∧ (0 <= s')%Q ∧
   formatTime (Finite s') = "4803839602528537:32" ∧
   expected s' = "4803839602528536:32") ∧
  (Double.isDouble t = true ∧ (0 <= t)%Q ∧
   formatTime (Finite t) = "1e+21:00" ∧
   expected t = "1000000000000000000000:00").
Proof. vm_compute. split_and!; congruence. Qed.

(** ** The document renderer *)

Lemma whenTruthy_app (content : string) (field : option string)
    (render : string → string) :
  match field with
  | Some v => if truthy (Some v) then content +:+ render v else content
  | None => content
  end = content +:+ whenTruthy field render.
Proof.
  destruct field as [v|]; simpl; [|by rewrite string_app_nil_r].
  destruct (String.eqb v ""); simpl; by rewrite ?string_app_nil_r.
Qed.

Lemma appendSpeaker_line (content : string) (s : Speaker.t) :
  appendSpeaker content s = content +:+ speakerLine s.
Proof.
  unfold appendSpeaker, speakerLine, emailPart, phonePart.
  rewrite (whenTruthy_app _ (Speaker.email s) (fun v => " - Email: " +:+ v)).
  rewrite (whenTruthy_app _ (Speaker.phoneNumber s)
             (fun v => " - Phone: " +:+ v)).
  by rewrite !string_app_assoc.
Qed.

Lemma fold_appendSpeaker (l : list Speaker.t) (content : string) :
  fold_left appendSpeaker l content = content +:+ concatAll (speakerLine <$> l).
Proof.
  revert content. induction l as [|s l IH]; intros content; simpl.
  - by rewrite string_app_nil_r.
  - by rewrite IH, appendSpeaker_line, string_app_assoc.
Qed.

Lemma appendEntry_block (speakers : list Speaker.t) (content : string)
    (e : Entry.t) :
  appendEntry speakers content e = content +:+ entryBlock speakers e.
Proof.
  unfold appendEntry, entryBlock, entryLines, topicsLine.
  destruct (Entry.topics e) as [|tp tps]; simpl; by rewrite !string_app_assoc.
Qed.

Lemma fold_appendEntry (speakers : list Speaker.t) (l : list Entry.t)
    (content : string) :
  fold_left (appendEntry speakers) l content =
  content +:+ concatAll (entryBlock speakers <$> l).
Proof.
  revert content. induction l as [|e l IH]; intros content; simpl.
  - by rewrite string_app_nil_r.
  - by rewrite IH, appendEntry_block, string_app_assoc.
Qed.

Lemma renderContent_blocks (t : ModjoCallExport) :
  renderContent t = headerBlock t +:+ speakersBlock t +:+ transcriptBlock t.
Proof.
  unfold renderContent, headerBlock, speakersBlock, transcriptBlock.
  rewrite fold_appendEntry, fold_appendSpeaker.
  rewrite (whenTruthy_app _ (callCrmId t) (fun v => "CRM ID: " +:+ v +:+ LF)).
  rewrite (whenTruthy_app _ (Relations.aiSummary (relations t))
             (fun v => "AI Summary: " +:+ v +:+ LF)).
  unfold crmLine, summaryLine, recordingLine.
  destruct (Relations.recording (relations t)) as [r|];
    by rewrite !string_app_assoc.
Qed.

Lemma rev_app_acc (s acc : string) :
  String.rev_app s acc = String.rev s +:+ acc.
Proof.
  unfold String.rev. revert acc.
  induction s as [|x s IH]; intros acc; simpl; [done|].
  rewrite (IH (String x "")), IH. by rewrite string_app_assoc.
Qed.

Lemma rev_cons (x : ascii) (s : string) :
  String.rev (String x s) = String.rev s +:+ String x "".
Proof. unfold String.rev at 1. simpl. apply rev_app_acc. Qed.

Lemma rev_app (a b : string) :
  String.rev (a +:+ b) = String.rev b +:+ String.rev a.
Proof.
  induction a as [|x a IH].
  - by rewrite string_app_nil_r.
  - by rewrite string_app_cons, !rev_cons, IH, string_app_assoc.
Qed.

Lemma rev_involutive (s : string) : String.rev (String.rev s) = s.
Proof.
  induction s as [|x s IH]; [done|]. by rewrite rev_cons, rev_app, IH.
Qed.

Lemma allWhiteSpace_app (a b : string) :
  allWhiteSpace (a +:+ b) = allWhiteSpace a && allWhiteSpace b.
Proof.
  induction a as [|x a IH]; [done|].
  rewrite string_app_cons. simpl. by rewrite IH, andb_assoc.
Qed.

Lemma allWhiteSpace_rev (s : string) :
  allWhiteSpace (String.rev s) = allWhiteSpace s.
Proof.
  induction s as [|x s IH]; [done|].
  rewrite rev_cons, allWhiteSpace_app, IH. simpl.
  by rewrite andb_true_r, andb_comm.
Qed.

Lemma trimStart_split (s : string) :
  ∃ l, s = l +:+ trimStart s ∧ allWhiteSpace l = true.
Proof.
  induction s as [|x s (l & Hs & Hl)]; [by exists ""|]. simpl.
  destruct (isWhiteSpace x) eqn:Hx.
  - exists (String x l). rewrite string_app_cons, <- Hs. simpl.
    by rewrite Hx, Hl.
  - by exists "".
Qed.

Lemma trimStart_clean (s : string) : startsClean (trimStart s).
Proof.
  induction s as [|x s IH]; [done|]. simpl.
  by destruct (isWhiteSpace x) eqn:Hx.
Qed.

Lemma trimEnd_split (s : string) :
  ∃ r, s = trimEnd s +:+ r ∧ allWhiteSpace r = true.
Proof.
  destruct (trimStart_split (String.rev s)) as (l & Hs & Hl).
  exists (String.rev l). split; [|by rewrite allWhiteSpace_rev].
  unfold trimEnd. by rewrite <- rev_app, <- Hs, rev_involutive.
Qed.

Lemma trimEnd_clean (s : string) : endsClean (trimEnd s).
Proof.
  unfold endsClean, trimEnd. rewrite rev_involutive. apply trimStart_clean.
Qed.

Lemma startsClean_prefix (a b : string) :
  startsClean (a +:+ b) → startsClean a.
Proof. by destruct a. Qed.

Lemma trim_trimmedFrom (s : string) : trimmedFrom s (trim s).
Proof.
  unfold trim.
  destruct (trimStart_split s) as (l & Hs & Hl).
  destruct (trimEnd_split (trimStart s)) as (r & Ht & Hr).
  split_and!.
  - exists l, r. split_and!; [|done..]. by rewrite <- Ht.
  - apply (startsClean_prefix _ r). rewrite <- Ht. apply trimStart_clean.
  - apply trimEnd_clean.
Qed.

Lemma whenTruthy_onlyIfPresent (field : option string)
    (render : string → string) :
  onlyIfPresent field (whenTruthy field render) render.
Proof.
  split; [by intros ->|]. destruct field as [v|]; simpl; [|done].
  destruct (String.eqb v ""); [done|]. by exists v.
Qed.

(** C6.  The document of a record is its header block (call id, title,
    start date, duration in seconds, provider, language, then the CRM id,
    recording URL and AI summary lines), then the speakers block with one
    line per speaker in order, then the transcript block with the lines of
    each entry in order.  An optional line is there only if its field is,
    and is empty when the field is absent.  The text sent is that string
    without its leading and trailing white space. *)
Theorem document_sections_in_order (t : ModjoCallExport) :
  renderContent t = headerBlock t +:+ speakersBlock t +:+ transcriptBlock t
  ∧ documentText t = trim (renderContent t)
  ∧ trimmedFrom (renderContent t) (documentText t)
  ∧ onlyIfPresent (callCrmId t) (crmLine t)
      (fun v => "CRM ID: " +:+ v +:+ LF)
  ∧ onlyIfPresent (url <$> Relations.recording (relations t))
      (recordingLine t) (fun v => "Recording URL: " +:+ v +:+ LF)
  ∧ onlyIfPresent (Relations.aiSummary (relations t)) (summaryLine t)
      (fun v => "AI Summary: " +:+ v +:+ LF)
  ∧ (∀ s, onlyIfPresent (Speaker.email s) (emailPart s)
            (fun v => " - Email: " +:+ v))
  ∧ (∀ s, onlyIfPresent (Speaker.phoneNumber s) (phonePart s)
            (fun v => " - Phone: " +:+ v)).
Proof.
  split_and!.
  - apply renderContent_blocks.
  - done.
  - apply trim_trimmedFrom.
  - apply whenTruthy_onlyIfPresent.
  - unfold recordingLine.
    destruct (Relations.recording (relations t)) as [r|]; split; try done.
    intros _. by exists (url r).
  - apply whenTruthy_onlyIfPresent.
  - intros s. apply whenTruthy_onlyIfPresent.
  - intros s. apply whenTruthy_onlyIfPresent.
Qed.

Lemma concatAll_app (l1 l2 : list string) :
  concatAll (l1 ++ l2)%list = concatAll l1 +:+ concatAll l2.
Proof.
  induction l1 as [|x l1 IH]; [done|]. simpl.
  by rewrite IH, string_app_assoc.
Qed.

Lemma speakerName_unresolved (speakers : list Speaker.t) (e : Entry.t) :
  (∀ s, s ∈ speakers → Speaker.speakerId s ≠ Entry.speakerId e) →
  speakerName speakers e = "Speaker " +:+ Number_toString (Entry.speakerId e).
Proof.
  intros Hno. unfold speakerName.
  destruct (find _ speakers) as [s|] eqn:Hfind; [|done].
  apply find_some in Hfind as [Hin Heq].
  apply Z.eqb_eq in Heq. apply list_elem_of_In in Hin. by destruct (Hno s).
Qed.

Lemma speakerName_resolved (l1 l2 : list Speaker.t) (s : Speaker.t)
    (e : Entry.t) :
  Speaker.speakerId s = Entry.speakerId e →
  (∀ s', s' ∈ l1 → Speaker.speakerId s' ≠ Entry.speakerId e) →
  speakerName (l1 ++ s :: l2)%list e = Speaker.name s.
Proof.
  intros Hs Hl1. unfold speakerName.
  induction l1 as [|x l1 IH]; simpl.
  - by rewrite Hs, Z.eqb_refl.
  - destruct (Z.eqb_spec (Speaker.speakerId x) (Entry.speakerId e)) as [Heq|_].
    + destruct (Hl1 x); [left|done].
    + apply IH. intros s' Hin. apply Hl1. by right.
Qed.

(** C7.  In the document of a record, the lines of a transcript entry carry
    the placeholder [Speaker <id>] as speaker name when no speaker of the
    record has the entry's speaker id, and the name of the first speaker
    with that id when there is one. *)
Theorem entry_speaker_name_or_placeholder (t : ModjoCallExport)
    (before after : list Entry.t) (e : Entry.t) :
  Relations.transcript (relations t) = (before ++ e :: after)%list →
  let speakers := Relations.speakers (relations t) in
  ∃ name,
    renderContent t =
      headerBlock t +:+ speakersBlock t +:+ LF +:+ "Transcript:" +:+ LF +:+
      concatAll (entryBlock speakers <$> before) +:+ entryLines name e +:+
      concatAll (entryBlock speakers <$> after)
    ∧ ((∀ s, s ∈ speakers → Speaker.speakerId s ≠ Entry.speakerId e) →
       name = "Speaker " +:+ Number_toString (Entry.speakerId e))
    ∧ (∀ l1 s l2,
         speakers = (l1 ++ s :: l2)%list →
         Speaker.speakerId s = Entry.speakerId e →
         (∀ s', s' ∈ l1 → Speaker.speakerId s' ≠ Entry.speakerId e) →
         name = Speaker.name s).
Proof.
  intros Htr speakers. exists (speakerName speakers e). split_and!.
  - rewrite renderContent_blocks. unfold transcriptBlock. fold speakers.
    rewrite Htr, fmap_app, concatAll_app, fmap_cons. by simpl.
  - apply speakerName_unresolved.
  - intros l1 s l2 -> Hs Hl1. by apply speakerName_resolved.
Qed.

Lemma speakerName_same_ids (e : Entry.t) (l1 l2 : list Speaker.t)
    (s s' : Speaker.t) :
  Speaker.speakerId s = Speaker.speakerId s' →
  Speaker.name s = Speaker.name s' →
  speakerName (l1 ++ s :: l2)%list e = speakerName (l1 ++ s' :: l2)%list e.
Proof.
  intros Hid Hname. unfold speakerName.
  induction l1 as [|x l1 IH]; simpl.
  - rewrite Hid. by destruct (Z.eqb _ _).
  - by destruct (Z.eqb _ _).
Qed.

Lemma renderContent_same_speaker_lines (t : ModjoCallExport)
    (l1 l2 : list Speaker.t) (s s' : Speaker.t) :
  Speaker.speakerId s = Speaker.speakerId s' →
  Speaker.name s = Speaker.name s' →
  speakerLine s = speakerLine s' →
  renderContent (withSpeakers (l1 ++ s :: l2)%list t) =
  renderContent (withSpeakers (l1 ++ s' :: l2)%list t).
Proof.
  intros Hid Hname Hline. rewrite !renderContent_blocks.
  unfold speakersBlock, transcriptBlock. simpl.
  rewrite !fmap_app, !fmap_cons, Hline.
  assert (entryBlock (l1 ++ s :: l2) <$> Relations.transcript (relations t) =
          entryBlock (l1 ++ s' :: l2) <$> Relations.transcript (relations t))
    as ->; [|done].
  apply list_fmap_ext. intros _ e _.
  unfold entryBlock. f_equal. by apply speakerName_same_ids.
Qed.

(** C9.  A CRM id, a speaker email or a speaker phone number that is the
    empty string is left out of the document exactly as when it is
    absent: the two documents are equal and the fragment is empty. *)
Theorem empty_optional_fields_omitted (t : ModjoCallExport) :
  renderContent (withCallCrmId (Some "") t) =
  renderContent (withCallCrmId None t)
  ∧ crmLine (withCallCrmId (Some "") t) = ""
  ∧ ∀ (l1 l2 : list Speaker.t) (s : Speaker.t),
      renderContent (withSpeakers (l1 ++ withEmail (Some "") s :: l2)%list t) =
      renderContent (withSpeakers (l1 ++ withEmail None s :: l2)%list t)
      ∧ renderContent
          (withSpeakers (l1 ++ withPhoneNumber (Some "") s :: l2)%list t) =
        renderContent (withSpeakers (l1 ++ withPhoneNumber None s :: l2)%list t)
      ∧ emailPart (withEmail (Some "") s) = ""
      ∧ phonePart (withPhoneNumber (Some "") s) = "".
Proof.
  split_and!; [done..|]. intros l1 l2 s.
  split_and!; [by apply renderContent_same_speaker_lines..|done|done].
Qed.

(** ** Traces *)

Lemma StronglySorted_snoc {A} (rel : A → A → Prop) (l : list A) (x : A) :
  StronglySorted rel l → Forall (fun a => rel a x) l →
  StronglySorted rel (l ++ [x]).
Proof.
  induction l as [|a l IH]; intros Hs Hx; simpl.
  - by repeat constructor.
  - apply StronglySorted_inv in Hs as [Hs Ha].
    apply Forall_cons in Hx as [Hax Hx].
    constructor; [by apply IH|]. apply Forall_app. by split; [|constructor].
Qed.

Lemma StronglySorted_lookup {A} (rel : A → A → Prop) (l : list A) :
  StronglySorted rel l →
  ∀ i j a b, (i < j)%nat → l !! i = Some a → l !! j = Some b → rel a b.
Proof.
  induction 1 as [|x l Hs IH Hx]; intros i j a b Hij Ha Hb; [done|].
  destruct j as [|j]; [lia|]. simpl in Hb.
  destruct i as [|i]; simpl in Ha.
  - injection Ha as ->. rewrite Forall_forall in Hx. apply Hx.
    by eapply list_elem_of_lookup_2.
  - apply (IH i j); [lia|done..].
Qed.

Lemma modjoRequests_app (tr1 tr2 : list Event) :
  modjoRequests (tr1 ++ tr2) = (modjoRequests tr1 ++ modjoRequests tr2)%list.
Proof. apply omap_app. Qed.

Lemma dustRequests_app (tr1 tr2 : list Event) :
  dustRequests (tr1 ++ tr2) = (dustRequests tr1 ++ dustRequests tr2)%list.
Proof. apply omap_app. Qed.

Lemma upsertFlights_app (tr1 tr2 : list Event) :
  upsertFlights (tr1 ++ tr2) = (upsertFlights tr1 ++ upsertFlights tr2)%list.
Proof. apply omap_app. Qed.

Lemma consoleLines_app (tr1 tr2 : list Event) :
  consoleLines (tr1 ++ tr2) = (consoleLines tr1 ++ consoleLines tr2)%list.
Proof. apply omap_app. Qed.

Lemma consoleLines_elem (tr : list Event) (e : Event) :
  e ∈ consoleLines tr → e ∈ tr.
Proof.
  unfold consoleLines. rewrite list_elem_of_omap.
  intros (e' & Hin & Hout). by destruct e'; simplify_eq/=.
Qed.

Lemma pagesFrom_S (first : Z) (count : nat) :
  pagesFrom first (S count) = (first, 50%Z) :: pagesFrom (first + 1) count.
Proof.
  unfold pagesFrom. simpl. rewrite Z.add_0_r. f_equal.
  rewrite <- fmap_S_seq, <- list_fmap_compose. apply list_fmap_ext.
  intros _ i _. simpl. f_equal. lia.
Qed.

Lemma pagesFrom_1 (first : Z) : pagesFrom first 1 = [(first, 50%Z)].
Proof. by rewrite pagesFrom_S. Qed.

(** ** The script *)

Ltac run_monad :=
  unfold mbind, mret, M_bind, M_ret, tryCatch, modjoApi_post, dustApi_post,
    console_log, console_error, reportError, emit, settle, succeeded; simpl.

Section ScriptFacts.

Context {R : Remote}.
Variables DUST_WORKSPACE_ID DUST_DATASOURCE_ID : string.

Implicit Types (w : World R) (st : St R).

Local Abbreviation upsert :=
  (upsertToDustDatasource DUST_WORKSPACE_ID DUST_DATASOURCE_ID).
Local Abbreviation request :=
  (upsertRequest DUST_WORKSPACE_ID DUST_DATASOURCE_ID).
Local Abbreviation replies :=
  (dustReplies DUST_WORKSPACE_ID DUST_DATASOURCE_ID).
Local Abbreviation upserted :=
  (afterUpsert DUST_WORKSPACE_ID DUST_DATASOURCE_ID).
Local Abbreviation script := (main DUST_WORKSPACE_ID DUST_DATASOURCE_ID).

(** *** The extractor *)

Lemma pageLoop_last_page fuel page acc w st elapsed resp :
  modjo_post R (remote w) page perPage = (st, elapsed, inr resp) →
  (page >= lastPage (pagination resp))%Z →
  pageLoop (S fuel) page acc w =
  Some (afterPage w page st elapsed resp acc,
        Returned (acc ++ values resp)%list).
Proof.
  intros Hpost Hlast. simpl. run_monad. rewrite Hpost. simpl.
  rewrite <- app_assoc. simpl.
  destruct (Z.geb_spec page (lastPage (pagination resp))); [done|lia].
Qed.

Lemma pageLoop_next_page fuel page acc w st elapsed resp :
  modjo_post R (remote w) page perPage = (st, elapsed, inr resp) →
  (page < lastPage (pagination resp))%Z →
  pageLoop (S fuel) page acc w =
  pageLoop fuel (page + 1) (acc ++ values resp)%list
           (afterPage w page st elapsed resp acc).
Proof.
  intros Hpost Hlast. simpl. run_monad. rewrite Hpost. simpl.
  rewrite <- app_assoc. simpl.
  destruct (Z.geb_spec page (lastPage (pagination resp))); [lia|done].
Qed.

Lemma pageLoop_failure fuel page acc w st elapsed error :
  modjo_post R (remote w) page perPage = (st, elapsed, inl error) →
  pageLoop (S fuel) page acc w =
  Some (afterFailure w page st elapsed error, Returned acc).
Proof.
  intros Hpost. simpl. run_monad. rewrite Hpost. simpl.
  destruct error as [[data|]|msg]; simpl; by rewrite <- app_assoc.
Qed.

Lemma modjoRequests_afterPage w page st elapsed resp acc :
  modjoRequests (trace (afterPage w page st elapsed resp acc)) =
  (modjoRequests (trace w) ++ [(page, 50%Z)])%list.
Proof. unfold afterPage. simpl. by rewrite modjoRequests_app. Qed.

Lemma modjoRequests_afterFailure w page st elapsed error :
  modjoRequests (trace (afterFailure w page st elapsed error)) =
  (modjoRequests (trace w) ++ [(page, 50%Z)])%list.
Proof. unfold afterFailure. simpl. by rewrite modjoRequests_app. Qed.



Lemma pageLoop_until_failure (pages : list ExportPage) (error : Thrown) :
  ∀ fuel page acc w,
  modjoReplies (remote w) page (S (length pages)) =
    ((inr <$> pages) ++ [inl error])%list →
  (∀ i p, pages !! i = Some p →
          (page + Z.of_nat i < lastPage (pagination p))%Z) →
  (length pages < fuel)%nat →
  ∃ w',
    pageLoop fuel page acc w =
      Some (w', Returned (acc ++ concat (values <$> pages))%list) ∧
    modjoRequests (trace w') =
      (modjoRequests (trace w) ++ pagesFrom page (S (length pages)))%list ∧
    last (trace w') =
      Some (ConsoleError "Error fetching Modjo transcripts:" (errorArg error)).
Proof.
  induction pages as [|p rest IH]; intros fuel page acc w Hrep Hmore Hfuel.
  - destruct fuel as [|fuel]; [lia|]. simpl in Hrep.
    destruct (modjo_post R (remote w) page perPage) as [[st elapsed] reply]
      eqn:Hpost.
    injection Hrep as ->.
    exists (afterFailure w page st elapsed error). split_and!.
    + simpl. rewrite app_nil_r. by apply pageLoop_failure.
    + by rewrite modjoRequests_afterFailure, pagesFrom_1.
    + unfold afterFailure. simpl. by rewrite last_app.
  - destruct fuel as [|fuel]; [simpl in Hfuel; lia|].
    change (modjoReplies (remote w) page (S (S (length rest))) =
            (inr p :: ((inr <$> rest) ++ [inl error]))%list) in Hrep.
    simpl in Hrep.
    destruct (modjo_post R (remote w) page perPage) as [[st elapsed] reply]
      eqn:Hpost.
    injection Hrep as -> Hrep.
    pose proof (Hmore 0%nat p eq_refl) as H0. rewrite Z.add_0_r in H0.
    destruct (IH fuel (page + 1)%Z (acc ++ values p)%list
                (afterPage w page st elapsed p acc))
      as (w' & Hrun & Htr & Hlast).
    + exact Hrep.
    + intros i q Hq. specialize (Hmore (S i) q Hq). lia.
    + simpl in Hfuel. lia.
    + exists w'. split_and!.
      * rewrite (pageLoop_next_page _ _ _ _ st elapsed p) by done.
        rewrite Hrun. simpl. by rewrite <- app_assoc.
      * rewrite Htr, modjoRequests_afterPage, <- app_assoc. f_equal.
        change (length (p :: rest)) with (S (length rest)).
        by rewrite (pagesFrom_S page).
      * done.
Qed.

(** C3.  When the pages before some page are answered, each announcing
    more pages, and the request for that page fails, [getModjoTranscripts]
    makes no further request, logs the error and returns, without throwing,
    the batches of the pages answered before. *)
Theorem getModjoTranscripts_partial_on_failure (pages : list ExportPage)
    (error : Thrown) (fuel : nat) w :
  modjoReplies (remote w) 1 (S (length pages)) =
    ((inr <$> pages) ++ [inl error])%list →
  (∀ i p, pages !! i = Some p →
          (1 + Z.of_nat i < lastPage (pagination p))%Z) →
  (length pages < fuel)%nat →
  ∃ w',
    getModjoTranscripts fuel w =
      Some (w', Returned (concat (values <$> pages))) ∧
    modjoRequests (trace w') =
      (modjoRequests (trace w) ++ pagesFrom 1 (S (length pages)))%list ∧
    last (trace w') =
      Some (ConsoleError "Error fetching Modjo transcripts:" (errorArg error)).
Proof.
  intros Hrep Hmore Hfuel. unfold getModjoTranscripts.
  by apply (pageLoop_until_failure pages error fuel 1%Z []).
Qed.



(** *** The publisher and the orchestrator *)

Lemma upsert_run (t : ModjoCallExport) w st elapsed reply :
  (running (limiter w) < maxConcurrent (limiter w))%nat →
  dust_post R (remote w) (request t).1 (request t).2 = (st, elapsed, reply) →
  upsert t w = Some (upserted t w st elapsed reply, Returned tt).
Proof.
  intros Hfree Hpost. unfold upsertToDustDatasource, limiter_schedule.
  run_monad.
  destruct (Nat.leb_spec (maxConcurrent (limiter w)) (running (limiter w)));
    [lia|].
  unfold upsertRequest, documentText in Hpost. simpl in Hpost.
  rewrite Hpost. simpl.
  unfold upserted, launchTime, upsertRequest. simpl.
  unfold documentText.
  destruct reply as [[[data|]|msg]|[]]; run_monad; by rewrite <- app_assoc.
Qed.

Lemma traces_afterUpsert (t : ModjoCallExport) w st elapsed reply :
  dustRequests (trace (upserted t w st elapsed reply)) =
    (dustRequests (trace w) ++ [request t])%list ∧
  upsertFlights (trace (upserted t w st elapsed reply)) =
    (upsertFlights (trace w) ++
     [(launchTime w, (launchTime w + elapsed)%N)])%list ∧
  consoleLines (trace (upserted t w st elapsed reply)) =
    (consoleLines (trace w) ++ [upsertOutcome t reply])%list ∧
  modjoRequests (trace (upserted t w st elapsed reply)) =
    modjoRequests (trace w).
Proof.
  unfold afterUpsert, dustRequests, upsertFlights, consoleLines,
    modjoRequests. simpl. rewrite !omap_app. simpl.
  destruct reply as [error|[]]; simpl; by rewrite ?app_nil_r.
Qed.

Lemma gateOpen_afterUpsert (t : ModjoCallExport) w st elapsed reply :
  gateOpen w → gateOpen (upserted t w st elapsed reply).
Proof.
  intros (Hrun & Hmax & Hmin & Hall & Hsorted).
  destruct (traces_afterUpsert t w st elapsed reply) as (_ & Hfl & _ & _).
  unfold gateOpen. rewrite Hfl. unfold afterUpsert. simpl. rewrite Hmin.
  split_and!; [done..| |].
  - apply Forall_app. split.
    + eapply Forall_impl; [exact Hall|]. unfold launchTime.
      intros [sent settled]. simpl. lia.
    + constructor; [|constructor]. simpl. lia.
  - apply StronglySorted_snoc; [done|].
    eapply Forall_impl; [exact Hall|]. unfold apart, launchTime.
    intros [sent settled]. simpl. lia.
Qed.

Lemma dustReplies_cons st (t : ModjoCallExport) (ts : list ModjoCallExport)
    st' elapsed reply :
  dust_post R st (request t).1 (request t).2 = (st', elapsed, reply) →
  replies st (t :: ts) = reply :: replies st' ts.
Proof. intros Hpost. simpl in *. by rewrite Hpost. Qed.

Lemma forOf_upserts (ts : list ModjoCallExport) :
  ∀ w, gateOpen w →
  ∃ w',
    forOf ts upsert w = Some (w', Returned tt) ∧
    gateOpen w' ∧
    dustRequests (trace w') =
      (dustRequests (trace w) ++ (request <$> ts))%list ∧
    consoleLines (trace w') =
      (consoleLines (trace w) ++
       zip_with upsertOutcome ts (replies (remote w) ts))%list ∧
    length (upsertFlights (trace w')) =
      (length (upsertFlights (trace w)) + length ts)%nat.
Proof.
  induction ts as [|t ts IH]; intros w Hgate.
  - exists w. simpl. by rewrite !app_nil_r, Nat.add_0_r.
  - destruct (dust_post R (remote w) (request t).1 (request t).2)
      as [[st elapsed] reply] eqn:Hpost.
    destruct (IH (upserted t w st elapsed reply)) as
      (w' & Hrun & Hgate' & Hreq & Hcon & Hlen);
      [by apply gateOpen_afterUpsert|].
    destruct (traces_afterUpsert t w st elapsed reply)
      as (Hreq1 & Hfl1 & Hcon1 & _).
    exists w'. split_and!.
    + simpl. unfold mbind, M_bind.
      rewrite (upsert_run t w st elapsed reply); [done| |done].
      destruct Hgate as (-> & -> & _). lia.
    + done.
    + by rewrite Hreq, Hreq1, <- app_assoc.
    + rewrite (dustReplies_cons _ _ _ _ _ _ Hpost).
      by rewrite Hcon, Hcon1, <- app_assoc.
    + rewrite Hlen, Hfl1, length_app. simpl. lia.
Qed.

Lemma pageLoop_keeps_gate (fuel : nat) :
  ∀ page acc w w' r,
  pageLoop fuel page acc w = Some (w', r) →
  limiter w' = limiter w ∧
  upsertFlights (trace w') = upsertFlights (trace w) ∧
  dustRequests (trace w') = dustRequests (trace w) ∧
  (clock w <= clock w')%N ∧
  ∃ ts, r = Returned ts.
Proof.
  induction fuel as [|fuel IH]; intros page acc w w' r Hrun; [done|].
  destruct (modjo_post R (remote w) page perPage) as [[st elapsed] [error|resp]]
    eqn:Hpost.
  - rewrite (pageLoop_failure _ _ _ _ st elapsed error) in Hrun by done.
    injection Hrun as <- <-. unfold afterFailure, upsertFlights, dustRequests.
    simpl. rewrite !omap_app. simpl. rewrite !app_nil_r.
    split_and!; [done..|lia|by eexists].
  - destruct (Z_lt_ge_dec page (lastPage (pagination resp))) as [Hlt|Hge].
    + rewrite (pageLoop_next_page _ _ _ _ st elapsed resp) in Hrun by done.
      apply IH in Hrun as (-> & -> & -> & Hclock & Hret).
      unfold afterPage, upsertFlights, dustRequests in *. simpl in *.
      rewrite !omap_app. simpl. rewrite !app_nil_r.
      split_and!; [done..|lia|done].
    + rewrite (pageLoop_last_page _ _ _ _ st elapsed resp) in Hrun by done.
      injection Hrun as <- <-. unfold afterPage, upsertFlights, dustRequests.
      simpl. rewrite !omap_app. simpl. rewrite !app_nil_r.
      split_and!; [done..|lia|by eexists].
Qed.

Lemma gateOpen_boot st (now : N) : gateOpen (boot st now).
Proof. unfold gateOpen. simpl. split_and!; by try constructor. Qed.

Lemma gateOpen_after_pages w w' :
  gateOpen w → limiter w' = limiter w →
  upsertFlights (trace w') = upsertFlights (trace w) →
  (clock w <= clock w')%N → gateOpen w'.
Proof.
  intros (Hrun & Hmax & Hmin & Hall & Hsorted) Hlim Hfl Hclock.
  unfold gateOpen. rewrite Hlim, Hfl. split_and!; [done..| |done].
  eapply Forall_impl; [exact Hall|]. intros [sent settled]. simpl. lia.
Qed.

(** The world when [main] has called [console.log] for the last time. *)
Lemma main_run (fuel : nat) w w1 (ts : list ModjoCallExport) :
  gateOpen w →
  getModjoTranscripts fuel w = Some (w1, Returned ts) →
  ∃ w2 w',
    script fuel w = Some (w', Returned tt) ∧
    gateOpen w2 ∧
    trace w' =
      (trace w2 ++ [ConsoleLog "All transcripts processed successfully."])%list
    ∧ dustRequests (trace w2) =
        (dustRequests (trace w) ++ (request <$> ts))%list
    ∧ consoleLines (trace w2) =
        (consoleLines (trace w1) ++
         ConsoleLog ("Found " +:+ Number_toString (Z.of_nat (length ts)) +:+
                     " transcripts.") ::
         zip_with upsertOutcome ts (replies (remote w1) ts))%list
    ∧ length (upsertFlights (trace w2)) =
        (length (upsertFlights (trace w)) + length ts)%nat.
Proof.
  intros Hgate Hget.
  pose proof (pageLoop_keeps_gate _ _ _ _ _ _ Hget)
    as (Hlim & Hfl & Hreq & Hclock & _).
  set (w1' := mkWorld (remote w1) (clock w1) (limiter w1)
                (trace w1 ++
                 [ConsoleLog ("Found " +:+
                              Number_toString (Z.of_nat (length ts)) +:+
                              " transcripts.")])).
  assert (gateOpen w1') as Hgate1.
  { apply (gateOpen_after_pages w); [done..| |done].
    unfold w1'. simpl. rewrite upsertFlights_app. simpl.
    by rewrite app_nil_r. }
  destruct (forOf_upserts ts w1' Hgate1)
    as (w2 & Hrun & Hgate2 & Hreq2 & Hcon2 & Hlen2).
  exists w2. eexists. split_and!.
  - unfold main, tryCatch, mbind, M_bind. rewrite Hget.
    unfold console_log at 1. unfold emit. fold w1'. rewrite Hrun.
    unfold console_log, emit. reflexivity.
  - done.
  - done.
  - rewrite Hreq2. unfold w1'. simpl. rewrite dustRequests_app. simpl.
    by rewrite app_nil_r, Hreq.
  - rewrite Hcon2. unfold w1'. simpl. rewrite consoleLines_app. simpl.
    by rewrite <- app_assoc.
  - rewrite Hlen2. unfold w1'. simpl. rewrite upsertFlights_app. simpl.
    by rewrite app_nil_r, Hfl.
Qed.

Lemma upsert_returns (t : ModjoCallExport) w :
  gateOpen w → ∃ w', upsert t w = Some (w', Returned tt).
Proof.
  intros (Hrun & Hmax & _).
  destruct (dust_post R (remote w) (request t).1 (request t).2)
    as [[st elapsed] reply] eqn:Hpost.
  exists (upserted t w st elapsed reply).
  apply upsert_run; [lia|done].
Qed.

(** C5.  Whatever Dust answers, [upsertToDustDatasource] returns without
    throwing, and [main] sends one upsert request per extracted record, in
    order; a record whose request fails leaves an error line carrying its
    call id on the console and the run goes on with the next record. *)
Theorem failed_upserts_reported_and_skipped st (now : N) (fuel : nat) w1
    (ts : list ModjoCallExport) :
  getModjoTranscripts fuel (boot st now) = Some (w1, Returned ts) →
  ∃ w',
    script fuel (boot st now) = Some (w', Returned tt)
    ∧ dustRequests (trace w') = request <$> ts
    ∧ consoleLines (trace w') =
        (consoleLines (trace w1) ++
         ConsoleLog ("Found " +:+ Number_toString (Z.of_nat (length ts)) +:+
                     " transcripts.") ::
         zip_with upsertOutcome ts (replies (remote w1) ts) ++
         [ConsoleLog "All transcripts processed successfully."])%list
    ∧ (∀ i t error,
         ts !! i = Some t →
         replies (remote w1) ts !! i = Some (inl error) →
         ConsoleError ("Error upserting transcript " +:+
                       Number_toString (callId t) +:+ " to Dust datasource:")
                      (errorArg error) ∈ trace w')
    ∧ (∀ t w, gateOpen w → ∃ w2, upsert t w = Some (w2, Returned tt)).
Proof.
  intros Hget.
  destruct (main_run fuel (boot st now)
              w1 ts (gateOpen_boot st now) Hget)
    as (w2 & w' & Hmain & _ & Htr & Hreq & Hcon & _).
  assert (consoleLines (trace w') =
          (consoleLines (trace w1) ++
           ConsoleLog ("Found " +:+ Number_toString (Z.of_nat (length ts)) +:+
                       " transcripts.") ::
           zip_with upsertOutcome ts (replies (remote w1) ts) ++
           [ConsoleLog "All transcripts processed successfully."])%list)
    as Hlines.
  { rewrite Htr, consoleLines_app, Hcon. simpl. by rewrite <- app_assoc. }
  exists w'. split_and!.
  - done.
  - rewrite Htr, dustRequests_app, Hreq. simpl. by rewrite app_nil_r.
  - done.
  - intros i t error Ht Hreply. apply consoleLines_elem. rewrite Hlines.
    apply elem_of_app. right. apply elem_of_cons. right.
    apply elem_of_app. left.
    apply (list_elem_of_lookup_2 _ i). rewrite lookup_zip_with, Ht. simpl.
    by rewrite Hreply.
  - apply upsert_returns.
Qed.

(** C8.  In every run of [main], an upsert request has settled before the
    next one is sent, two upsert requests are sent at least 500 apart, and
    the requests are sent in the order of the extracted records. *)
Theorem upserts_one_at_a_time_and_spaced st (now : N) (fuel : nat) w'
    (r : Result unit) :
  script fuel (boot st now) = Some (w', r) →
  (∀ i j a b,
     (i < j)%nat →
     upsertFlights (trace w') !! i = Some a →
     upsertFlights (trace w') !! j = Some b →
     (a.1 <= a.2)%N ∧ (a.2 <= b.1)%N ∧ (a.1 + 500 <= b.1)%N)
  ∧ ∃ w1 ts,
      getModjoTranscripts fuel (boot st now) = Some (w1, Returned ts)
      ∧ dustRequests (trace w') = request <$> ts
      ∧ length (upsertFlights (trace w')) = length ts.
Proof.
  intros Hmain.
  destruct (getModjoTranscripts fuel (boot st now)) as [[w1 r1]|] eqn:Hget;
    [|by unfold main, tryCatch, mbind, M_bind in Hmain;
         rewrite Hget in Hmain].
  destruct (pageLoop_keeps_gate _ _ _ _ _ _ Hget) as (_ & _ & _ & _ & ts & ->).
  destruct (main_run fuel (boot st now)
              w1 ts (gateOpen_boot st now) Hget)
    as (w2 & w'' & Hmain' & Hgate & Htr & Hreq & _ & Hlen).
  rewrite Hmain in Hmain'. injection Hmain' as -> ->.
  assert (upsertFlights (trace w'') = upsertFlights (trace w2)) as Hfl.
  { rewrite Htr, upsertFlights_app. simpl. by rewrite app_nil_r. }
  destruct Hgate as (_ & _ & _ & Hall & Hsorted).
  split.
  - intros i j a b Hij Ha Hb. rewrite Hfl in Ha, Hb.
    destruct (StronglySorted_lookup _ _ Hsorted i j a b Hij Ha Hb).
    rewrite Forall_forall in Hall.
    destruct (Hall a) as (Hle & _).
    { by eapply list_elem_of_lookup_2. }
    done.
  - exists w1, ts. split_and!; [done| |].
    + rewrite Htr, dustRequests_app, Hreq. simpl. by rewrite app_nil_r.
    + by rewrite Hfl, Hlen.
Qed.

(** C4.  The document identifier is ["modjo-transcript-"] followed by the
    call id, so two records have the same identifier exactly when they have
    the same call id; upserting a record twice sends the same request twice,
    which leaves the one document that a single upsert leaves. *)
Theorem documentId_function_of_callId (t t' : ModjoCallExport) :
  documentId t = "modjo-transcript-" +:+ Number_toString (callId t)
  ∧ (callId t = callId t' ↔ documentId t = documentId t')
  ∧ (callId t = callId t' → (request t).1 = (request t').1)
  ∧ (∀ store,
       replay [request t; request t] store = replay [request t] store)
  ∧ replay [request t; request t] ∅ = {[ (request t).1 := documentText t ]}
  ∧ (∀ w, gateOpen w →
       ∃ w1 w2,
         upsert t w = Some (w1, Returned tt) ∧
         upsert t w1 = Some (w2, Returned tt) ∧
         dustRequests (trace w2) =
           (dustRequests (trace w) ++ [request t; request t])%list).
Proof.
  split_and!.
  - done.
  - split; [by unfold documentId; intros ->|].
    unfold documentId, Number_toString. intros Heq.
    apply (inj (String.app "modjo-transcript-")) in Heq.
    by apply (inj pretty) in Heq.
  - unfold upsertRequest, documentId. simpl. by intros ->.
  - intros store. unfold replay, storeUpsert. simpl.
    by rewrite insert_insert_eq.
  - unfold replay, storeUpsert. simpl. by rewrite insert_insert_eq.
  - intros w Hgate.
    destruct (dust_post R (remote w) (request t).1 (request t).2)
      as [[st elapsed] reply] eqn:Hpost.
    pose proof (gateOpen_afterUpsert t w st elapsed reply Hgate) as Hgate1.
    set (w1 := upserted t w st elapsed reply) in *.
    destruct (dust_post R (remote w1) (request t).1 (request t).2)
      as [[st' elapsed'] reply'] eqn:Hpost'.
    exists w1, (upserted t w1 st' elapsed' reply'). split_and!.
    + apply upsert_run; [|done]. destruct Hgate as (-> & -> & _). lia.
    + apply upsert_run; [|done]. destruct Hgate1 as (-> & -> & _). lia.
    + destruct (traces_afterUpsert t w1 st' elapsed' reply') as (-> & _).
      destruct (traces_afterUpsert t w st elapsed reply) as (Hreq & _).
      fold w1 in Hreq. by rewrite Hreq, <- app_assoc.
Qed.

End ScriptFacts.

(** ** Examples *)

Example formatTime_125 : formatTime (Finite 125%Q) = "02:05".
Proof. by vm_compute. Qed.

Example formatTime_59 : formatTime (Finite 59%Q) = "00:59".
Proof. by vm_compute. Qed.

Example formatTime_half_second : formatTime (Finite (7261 # 2)%Q) = "60:30".
Proof. by vm_compute. Qed.

Example formatTime_many_minutes : formatTime (Finite 600000%Q) = "10000:00".
Proof. by vm_compute. Qed.

Example shortestToString_below_2_53 :
  Double.shortestToString <$>
    [1; 7; 10; 59; 60; 125; 1000; 3661; 4096; 600000; 123456789; 10 ^ 15;
     2 ^ 52; 2 ^ 53 - 2; 2 ^ 53 - 1]%Z =
  Number_toString <$>
    [1; 7; 10; 59; 60; 125; 1000; 3661; 4096; 600000; 123456789; 10 ^ 15;
     2 ^ 52; 2 ^ 53 - 2; 2 ^ 53 - 1]%Z.
Proof. by vm_compute. Qed.

Example formatTime_minus_half : formatTime (Finite (- (1 # 2))%Q) = "-1:-1".
Proof. by vm_compute. Qed.

Example formatTime_Infinity : formatTime Infinity = "Infinity:NaN".
Proof. by vm_compute. Qed.

Example formatTime_NegInfinity : formatTime NegInfinity = "-Infinity:NaN".
Proof. by vm_compute. Qed.

Example formatTime_NaN : formatTime NaN = "NaN:NaN".
Proof. by vm_compute. Qed.

Example formatTime_large :
  formatTime (Finite (Double.roundDouble (inject_Z (10 ^ 23)))) =
  "1.6666666666666665e+21:32".
Proof. by vm_compute. Qed.

Example documentText_demo :
  documentText (Demo.call 1) =
"Call ID: 1
Title: Weekly sync
Date: 2024-03-01T09:00:00Z
Duration: 125 seconds
Provider: aircall
Language: en

Speakers:
1: Ada (user)

Transcript:
[00:00 - 00:59] Ada: Hello

[00:59 - 02:05] Speaker 7: Bye
Topics: pricing".
Proof. by vm_compute. Qed.

Lemma formatTime_minutes_seconds_witness :
  Double.isDouble 3661 = true ∧ (0 <= 3661)%Q ∧
  (3661 < inject_Z formatTimeHorizon)%Q ∧
  formatTime (Finite 3661%Q) = "61:01".
Proof.
  split_and!; [by vm_compute..|].
  destruct (formatTime_minutes_seconds 3661) as [Hfmt _]; [by vm_compute..|].
  rewrite Hfmt. by vm_compute.
Defined.

Lemma entry_speaker_name_or_placeholder_witness :
  ∃ before e,
    Relations.transcript (relations (Demo.call 1)) = (before ++ [e])%list ∧
    renderContent (Demo.call 1) =
      headerBlock (Demo.call 1) +:+ speakersBlock (Demo.call 1) +:+ LF +:+
      "Transcript:" +:+ LF +:+
      concatAll (entryBlock (Relations.speakers (relations (Demo.call 1)))
                   <$> before) +:+
      entryLines "Speaker 7" e.
Proof.
  exists [Entry.mk (Finite 0%Q) (Finite 59%Q) 1 "Hello" []],
         (Entry.mk (Finite 59%Q) (Finite 125%Q) 7 "Bye"
            [Topic.mk 1 "pricing"]).
  split; [reflexivity|].
  destruct (entry_speaker_name_or_placeholder (Demo.call 1)
              [Entry.mk (Finite 0%Q) (Finite 59%Q) 1 "Hello" []] []
              (Entry.mk (Finite 59%Q) (Finite 125%Q) 7 "Bye"
                 [Topic.mk 1 "pricing"]) eq_refl)
    as (name & Hdoc & Hplaceholder & _).
  rewrite Hdoc, Hplaceholder.
  - by vm_compute.
  - intros s Hs. apply list_elem_of_singleton in Hs as ->. simpl. lia.
Defined.


Lemma getModjoTranscripts_partial_on_failure_witness :
  ∃ w',
    getModjoTranscripts 5 (@boot Demo.remote 2%Z 0%N) =
      Some (w', Returned (Demo.batch 1)) ∧
    modjoRequests (trace w') = [(1, 50); (2, 50)]%Z ∧
    last (trace w') =
      Some (ConsoleError "Error fetching Modjo transcripts:"
              (ErrorValue (AxiosError None))).
Proof.
  apply (getModjoTranscripts_partial_on_failure [Demo.page 1]
           (AxiosError None) 5 (@boot Demo.remote 2%Z 0%N)).
  - reflexivity.
  - intros [|i] p Hp; simplify_eq/=; lia.
  - simpl. lia.
Defined.


Lemma demo_extraction :
  ∃ w1,
    getModjoTranscripts 3 (@boot Demo.remote 0%Z 0%N) =
      Some (w1, Returned Demo.calls) ∧
    remote w1 = 0%Z.
Proof. eexists. split; reflexivity. Qed.

Lemma demo_run :
  ∃ w', main "ws" "ds" 3 (@boot Demo.remote 0%Z 0%N) = Some (w', Returned tt).
Proof. eexists. vm_compute. reflexivity. Qed.

Lemma failed_upserts_reported_and_skipped_witness :
  ∃ w',
    main "ws" "ds" 3 (@boot Demo.remote 0%Z 0%N) = Some (w', Returned tt) ∧
    dustRequests (trace w') = upsertRequest "ws" "ds" <$> Demo.calls ∧
    ConsoleError "Error upserting transcript 2 to Dust datasource:"
      (ResponseData "rejected") ∈ trace w'.
Proof.
  destruct demo_extraction as (w1 & Hget & Hst).
  destruct (failed_upserts_reported_and_skipped (R:=Demo.remote) "ws" "ds"
              0%Z 0%N 3 w1 Demo.calls Hget)
    as (w' & Hmain & Hreq & _ & Herr & _).
  exists w'. split_and!; [done..|].
  apply (Herr 1%nat (Demo.call 2) (AxiosError (Some "rejected")));
    [reflexivity|].
  rewrite Hst. reflexivity.
Defined.

Lemma upserts_one_at_a_time_and_spaced_witness :
  ∃ w',
    main "ws" "ds" 3 (@boot Demo.remote 0%Z 0%N) = Some (w', Returned tt) ∧
    length (upsertFlights (trace w')) = 5%nat ∧
    ∀ i j a b,
      (i < j)%nat →
      upsertFlights (trace w') !! i = Some a →
      upsertFlights (trace w') !! j = Some b →
      (a.1 <= a.2)%N ∧ (a.2 <= b.1)%N ∧ (a.1 + 500 <= b.1)%N.
Proof.
  destruct demo_run as (w' & Hmain).
  destruct (upserts_one_at_a_time_and_spaced (R:=Demo.remote) "ws" "ds"
              0%Z 0%N 3 w' (Returned tt) Hmain)
    as (Hlane & w1 & ts & Hget & _ & Hlen).
  exists w'. split_and!; [done| |done].
  destruct demo_extraction as (w1' & Hget' & _).
  rewrite Hget' in Hget. injection Hget as _ <-. by rewrite Hlen.
Defined.

Lemma documentId_function_of_callId_witness :
  documentId (Demo.call 1) = "modjo-transcript-1" ∧
  documentId (Demo.call 1) ≠ documentId (Demo.call 2) ∧
  replay [upsertRequest "ws" "ds" (Demo.call 1);
          upsertRequest "ws" "ds" (Demo.call 1)] ∅ =
    {[ "/w/ws/data_sources/ds/documents/modjo-transcript-1" :=
         documentText (Demo.call 1) ]}.
Proof.
  destruct (documentId_function_of_callId (R:=Demo.remote) "ws" "ds"
              (Demo.call 1) (Demo.call 2))
    as (Hid & Hiff & _ & _ & Hone & _).
  split_and!.
  - rewrite Hid. by vm_compute.
  - intros Heq. apply Hiff in Heq. simpl in Heq. lia.
  - exact Hone.
Defined.

(** * Further properties *)

(** ** The time formatter, further *)

Lemma Qfloor_nonneg (s : Q) : (0 <= s)%Q → (0 ≤ Qfloor s)%Z.
Proof. intros Hs. change 0%Z with (Qfloor 0). by apply Qfloor_resp_le. Qed.

Lemma Qfloor_safe (s : Q) :
  (0 <= s)%Q → (s < inject_Z formatTimeHorizon)%Q →
  (0 ≤ Qfloor s < formatTimeHorizon)%Z.
Proof.
  intros H0 H53. split; [by apply Qfloor_nonneg|].
  rewrite Zlt_Qlt. eapply Qle_lt_trans; [apply Qfloor_le|done].
Qed.

(** In the safe range the quotient by 60 is not disturbed by rounding and
    both numbers are printed in plain decimal digits. *)
Lemma formatTime_whole_seconds (s : Q) :
  safeSeconds s →
  formatTime (Finite s) =
    zeroPadded 2 (Qfloor s / 60) +:+ ":" +:+ zeroPadded 2 (Qfloor s mod 60).
Proof.
  intros (Hd & Hs & Hs53).
  pose proof (Qfloor_safe s Hs Hs53) as Hfl.
  pose proof (Z.mod_pos_bound (Qfloor s) 60) as Hr.
  assert (0 ≤ Qfloor s / 60 < 2 ^ 53)%Z as Hm.
  { split; [apply Z.div_pos; lia|].
    apply Z.div_lt_upper_bound; [lia|].
    etrans; [exact (proj2 Hfl)|]. by vm_compute. }
  unfold formatTime, Number_div, Number_rem, Math_floor, Double_toString.
  rewrite floor_div_60 by done.
  rewrite Math_trunc_nonneg by by apply sixtieth_nonneg.
  fold (floorMod s 60). rewrite Qfloor_floorMod, Qfloor_sixtieth.
  rewrite !integerToString_safe by lia.
  by rewrite !padStart_zero.
Qed.

Lemma string_app_inv (a a' b b' : string) :
  String.length a = String.length a' → a +:+ b = a' +:+ b' → a = a' ∧ b = b'.
Proof.
  revert a'. induction a as [|x a IH]; intros [|x' a'] Hlen Heq;
    try discriminate Hlen; [done|].
  rewrite !string_app_cons in Heq. injection Heq as -> Heq.
  injection Hlen as Hlen. by destruct (IH a' Hlen Heq) as [-> ->].
Qed.

Lemma Number_toString_three_digits (n : Z) :
  (100 ≤ n)%Z → (3 ≤ String.length (Number_toString n))%nat.
Proof.
  intros Hn. destruct n as [|p|p]; try lia.
  unfold Number_toString, pretty, pretty_Z, pretty, pretty_positive, pretty,
    pretty_N.
  rewrite decide_False by done.
  rewrite pretty_N_go_step by lia.
  rewrite pretty_N_go_step by (apply N.div_str_pos; lia).
  rewrite pretty_N_go_step.
  - etrans; [|apply pretty_N_go_length]. simpl. lia.
  - rewrite N.Div0.div_div. apply N.div_str_pos. lia.
Qed.

Lemma Number_toString_tens (n : Z) :
  (10 ≤ n < 100)%Z →
  ∃ c d, Number_toString n = String c (String d "") ∧ c ≠ "0"%char.
Proof.
  intros Hn. destruct n as [|p|p]; try lia.
  unfold Number_toString, pretty, pretty_Z, pretty, pretty_positive, pretty,
    pretty_N.
  rewrite decide_False by done.
  rewrite pretty_N_go_step by lia.
  rewrite pretty_N_go_step by (apply N.div_str_pos; lia).
  replace (N.pos p / 10 / 10)%N with 0%N
    by (symmetry; rewrite N.Div0.div_div; apply N.div_small; lia).
  rewrite pretty_N_go_0. eexists _, _. split; [done|].
  rewrite N.mod_small by (apply N.Div0.div_lt_upper_bound; lia).
  change "0"%char with (pretty_N_char 0). intros Habs.
  apply pretty_N_char_inj in Habs; [|apply N.Div0.div_lt_upper_bound; lia|lia].
  assert (1 ≤ N.pos p / 10)%N by (apply N.div_le_lower_bound; lia). lia.
Qed.

Lemma zeroPadded_inj (m m' : Z) :
  (0 ≤ m)%Z → (0 ≤ m')%Z → zeroPadded 2 m = zeroPadded 2 m' → m = m'.
Proof.
  assert (∀ a b, (0 ≤ a < 10)%Z → (10 ≤ b)%Z →
            zeroPadded 2 a ≠ zeroPadded 2 b) as Hmixed.
  { intros a b Ha Hb Heq.
    rewrite zeroPadded_short, (zeroPadded_long b) in Heq by lia.
    assert (String.length (Number_toString b) = 2%nat) as Hlen.
    { rewrite <- Heq, string_length_app. simpl.
      by rewrite Number_toString_digit. }
    destruct (decide (b < 100)%Z) as [Hlt|Hge].
    - destruct (Number_toString_tens b) as (c & d & Hb' & Hc); [lia|].
      rewrite Hb' in Heq. rewrite string_app_cons in Heq. by injection Heq.
    - pose proof (Number_toString_three_digits b). lia. }
  intros Hm Hm' Heq.
  destruct (decide (m < 10)%Z), (decide (m' < 10)%Z).
  - rewrite !zeroPadded_short in Heq by lia.
    apply (inj (String.app "0")) in Heq. by apply (inj pretty) in Heq.
  - destruct (Hmixed m m'); [lia..|done].
  - destruct (Hmixed m' m); [lia..|done].
  - rewrite !zeroPadded_long in Heq by lia. by apply (inj pretty) in Heq.
Qed.

(** X1.  Two offsets in the safe range are printed alike exactly when they fall
    in the same whole second: the format loses the fraction and nothing
    else. *)
Theorem formatTime_same_iff_same_second (s1 s2 : Q) :
  safeSeconds s1 → safeSeconds s2 →
  formatTime (Finite s1) = formatTime (Finite s2) ↔ Qfloor s1 = Qfloor s2.
Proof.
  intros H1 H2. rewrite !formatTime_whole_seconds by done.
  split; [|by intros ->].
  pose proof (Qfloor_nonneg s1 (proj1 (proj2 H1))) as Hf1.
  pose proof (Qfloor_nonneg s2 (proj1 (proj2 H2))) as Hf2.
  intros Heq.
  assert (String.length (zeroPadded 2 (Qfloor s1 / 60)) =
          String.length (zeroPadded 2 (Qfloor s2 / 60))) as Hlen.
  { apply (f_equal String.length) in Heq.
    rewrite !string_length_app in Heq.
    pose proof (Z.mod_pos_bound (Qfloor s1) 60) as Hr1.
    pose proof (Z.mod_pos_bound (Qfloor s2) 60) as Hr2.
    rewrite (zeroPadded_two_digits (Qfloor s1 mod 60)) in Heq by lia.
    rewrite (zeroPadded_two_digits (Qfloor s2 mod 60)) in Heq by lia.
    lia. }
  destruct (string_app_inv _ _ _ _ Hlen Heq) as [Hm Hr].
  apply (inj (String.app ":")) in Hr.
  apply zeroPadded_inj in Hm; [|apply Z.div_pos; lia..].
  apply zeroPadded_inj in Hr; [|apply Z.mod_pos_bound; lia..].
  rewrite (Z.div_mod (Qfloor s1) 60), (Z.div_mod (Qfloor s2) 60) by lia.
  by rewrite Hm, Hr.
Qed.

(** X2.  An offset in the safe range is printed on five characters or more;
    on exactly five, [MM:SS], below 100 minutes, and on more from 100
    minutes on. *)
Theorem formatTime_width (s : Q) :
  safeSeconds s →
  (5 ≤ String.length (formatTime (Finite s)))%nat ∧
  ((s < 6000)%Q →
   String.length (formatTime (Finite s)) = 5%nat ∧
   String.get 2 (formatTime (Finite s)) = Some ":"%char) ∧
  ((6000 <= s)%Q → (5 < String.length (formatTime (Finite s)))%nat).
Proof.
  intros Hsafe. rewrite formatTime_whole_seconds by done.
  destruct Hsafe as (_ & Hs & _).
  pose proof (Qfloor_nonneg s Hs) as Hf.
  pose proof (Z.mod_pos_bound (Qfloor s) 60) as Hr.
  rewrite !string_length_app, (zeroPadded_two_digits (_ mod _)) by lia.
  simpl.
  assert (0 ≤ Qfloor s / 60)%Z as Hm by (apply Z.div_pos; lia).
  split_and!.
  - destruct (decide (Qfloor s / 60 < 10)%Z).
    + rewrite zeroPadded_two_digits by lia. lia.
    + rewrite zeroPadded_long by lia.
      pose proof (Number_toString_digits (Qfloor s / 60)). lia.
  - intros Hlt.
    assert (Qfloor s < 6000)%Z as Hlt'.
    { rewrite Zlt_Qlt. eapply Qle_lt_trans; [apply Qfloor_le|done]. }
    assert (Qfloor s / 60 < 100)%Z by (apply Z.div_lt_upper_bound; lia).
    pose proof (zeroPadded_two_digits (Qfloor s / 60)) as Hlen.
    split; [rewrite Hlen; lia|].
    destruct (zeroPadded 2 (Qfloor s / 60)) as [|c1 [|c2 [|c3 rest]]];
      simpl in Hlen; try lia. done.
  - intros Hge.
    assert (6000 ≤ Qfloor s)%Z as Hge'.
    { change 6000%Z with (Qfloor 6000). by apply Qfloor_resp_le. }
    assert (100 ≤ Qfloor s / 60)%Z by (apply Z.div_le_lower_bound; lia).
    rewrite zeroPadded_long by lia.
    pose proof (Number_toString_three_digits (Qfloor s / 60)). lia.
Qed.

Lemma pretty_positive_nonempty (p : positive) :
  (1 ≤ String.length (pretty p))%nat.
Proof.
  unfold pretty, pretty_positive, pretty, pretty_N.
  rewrite decide_False by done. rewrite pretty_N_go_step by lia.
  etrans; [|apply pretty_N_go_length]. simpl. lia.
Qed.





(** ** The document, further *)

Lemma trimStart_clean_id (s : string) : startsClean s → trimStart s = s.
Proof. destruct s as [|c s]; [done|]. simpl. by intros ->. Qed.

Lemma trimStart_app (x y : string) :
  startsClean y → trimStart (x +:+ y) = trimStart x +:+ y.
Proof.
  intros Hy. induction x as [|c x IH]; [by apply trimStart_clean_id|].
  rewrite string_app_cons. simpl. by destruct (isWhiteSpace c).
Qed.

Lemma trimEnd_app (a b : string) :
  endsClean a → trimEnd (a +:+ b) = a +:+ trimEnd b.
Proof.
  intros Ha. unfold trimEnd.
  by rewrite rev_app, trimStart_app, rev_app, rev_involutive.
Qed.

Lemma endsClean_app (a b : string) :
  b ≠ "" → endsClean b → endsClean (a +:+ b).
Proof.
  unfold endsClean. rewrite rev_app. intros Hb.
  destruct (String.rev b) as [|c r] eqn:Hrev; [|done].
  apply (f_equal String.rev) in Hrev. rewrite rev_involutive in Hrev. done.
Qed.

Lemma pretty_N_go_suffix (x : N) (s : string) :
  ∃ pre, pretty_N_go x s = pre +:+ s.
Proof.
  revert s. induction (N.lt_wf_0 x) as [x _ IH]. intros s.
  destruct (decide (x = 0)%N) as [->|Hx]; [by exists ""|].
  rewrite pretty_N_go_step by lia.
  destruct (IH (x / 10)%N (N.div_lt x 10 ltac:(lia) eq_refl)
              (String (pretty_N_char (x mod 10)) s)) as [pre ->].
  exists (pre +:+ String (pretty_N_char (x mod 10)) "").
  by rewrite string_app_assoc.
Qed.

Lemma pretty_N_char_not_space (x : N) : isWhiteSpace (pretty_N_char x) = false.
Proof. unfold pretty_N_char. by repeat case_match. Qed.

Lemma pretty_positive_endsClean (p : positive) :
  pretty p ≠ "" ∧ endsClean (pretty p).
Proof.
  split.
  - pose proof (pretty_positive_nonempty p) as Hlen. intros Heq.
    rewrite Heq in Hlen. simpl in Hlen. lia.
  - unfold pretty, pretty_positive, pretty, pretty_N.
    rewrite decide_False by done. rewrite pretty_N_go_step by lia.
    destruct (pretty_N_go_suffix (N.pos p / 10)
                (String (pretty_N_char (N.pos p mod 10)) "")) as [pre ->].
    apply endsClean_app; [done|]. apply pretty_N_char_not_space.
Qed.

Lemma Number_toString_endsClean (n : Z) :
  Number_toString n ≠ "" ∧ endsClean (Number_toString n).
Proof.
  destruct n as [|p|p]; [done|apply pretty_positive_endsClean|].
  destruct (pretty_positive_endsClean p) as [Hne Hclean].
  split; [done|]. by apply (endsClean_app "-").
Qed.

(** X4.  The document sent starts with the record's call id line, and is the
    rendered content less some white space at its end: nothing is trimmed
    at the start. *)
Theorem documentText_starts_with_call_id (t : ModjoCallExport) :
  ∃ rest tail,
    documentText t = "Call ID: " +:+ Number_toString (callId t) +:+ rest ∧
    renderContent t = documentText t +:+ tail ∧
    allWhiteSpace tail = true.
Proof.
  destruct (Number_toString_endsClean (callId t)) as [Hne Hclean].
  assert (∃ body,
            renderContent t =
              ("Call ID: " +:+ Number_toString (callId t)) +:+ body)
    as [body Hbody].
  { rewrite renderContent_blocks. unfold headerBlock. eexists.
    rewrite !string_app_assoc. reflexivity. }
  unfold documentText, trim.
  rewrite (trimStart_clean_id (renderContent t)) by by rewrite Hbody.
  destruct (trimEnd_split (renderContent t)) as (tail & Htail & Hws).
  exists (trimEnd body), tail. split_and!; [|done..].
  rewrite Hbody, trimEnd_app, string_app_assoc; [done|].
  by apply endsClean_app.
Qed.

(** X5.  Records with different call ids are upserted at different paths: no
    document of a run overwrites another. *)
Theorem upsert_paths_distinct (ws ds : string) (ts : list ModjoCallExport) :
  NoDup (callId <$> ts) → NoDup ((upsertRequest ws ds <$> ts).*1).
Proof.
  intros Hnd.
  assert ((upsertRequest ws ds <$> ts).*1 =
          (fun id => documentPath ws ds
                       ("modjo-transcript-" +:+ Number_toString id))
            <$> (callId <$> ts)) as ->.
  { rewrite <- !list_fmap_compose. by apply list_fmap_ext. }
  apply NoDup_fmap_2; [|done].
  intros a b Heq. unfold documentPath in Heq.
  repeat (apply (inj (String.app _)) in Heq).
  by apply (inj pretty) in Heq.
Qed.

(** ** The script, further *)

Section PipelineFacts.

Context {R : Remote}.
Variables DUST_WORKSPACE_ID DUST_DATASOURCE_ID : string.

Implicit Types (w : World R) (st : St R).

Local Abbreviation upsert :=
  (upsertToDustDatasource DUST_WORKSPACE_ID DUST_DATASOURCE_ID).
Local Abbreviation request :=
  (upsertRequest DUST_WORKSPACE_ID DUST_DATASOURCE_ID).
Local Abbreviation upserted :=
  (afterUpsert DUST_WORKSPACE_ID DUST_DATASOURCE_ID).
Local Abbreviation script := (main DUST_WORKSPACE_ID DUST_DATASOURCE_ID).

Lemma modjoReplies_S st (page : Z) (count : nat) st' elapsed reply :
  modjo_post R st page perPage = (st', elapsed, reply) →
  modjoReplies st page (S count) = reply :: modjoReplies st' (page + 1) count.
Proof. intros Hpost. simpl. by rewrite Hpost. Qed.

(** Every run of the loop that returns: the pages answered, the failure
    that ended it if any, and what it added to the trace. *)
Lemma pageLoop_run (fuel : nat) :
  ∀ page acc w w' r,
  pageLoop fuel page acc w = Some (w', r) →
  ∃ pages tail ext,
    modjoReplies (remote w) page (length pages + length tail) =
      ((inr <$> pages) ++ (inl <$> tail))%list
    ∧ (length tail ≤ 1)%nat
    ∧ (1 ≤ length pages + length tail ≤ fuel)%nat
    ∧ r = Returned (acc ++ concat (values <$> pages))%list
    ∧ (∀ i p, pages !! i = Some p →
         (page + Z.of_nat i >= lastPage (pagination p))%Z ↔
         (S i = length pages ∧ tail = []))
    ∧ trace w' = (trace w ++ ext)%list
    ∧ modjoRequests ext = pagesFrom page (length pages + length tail)
    ∧ dustRequests ext = []
    ∧ (∀ line arg, ConsoleError line arg ∈ ext →
         line = "Error fetching Modjo transcripts:").
Proof.
  induction fuel as [|fuel IH]; intros page acc w w' r Hrun; [done|].
  destruct (modjo_post R (remote w) page perPage) as [[st elapsed] [error|resp]]
    eqn:Hpost.
  - rewrite (pageLoop_failure _ _ _ _ st elapsed error) in Hrun by done.
    injection Hrun as <- <-. exists [], [error]. eexists. split_and!.
    + change (length [] + length [error])%nat with 1%nat.
      by rewrite (modjoReplies_S _ _ _ _ _ _ Hpost).
    + simpl. lia.
    + simpl. lia.
    + simpl. lia.
    + simpl. by rewrite app_nil_r.
    + intros i p Hp. done.
    + reflexivity.
    + by rewrite pagesFrom_1.
    + done.
    + intros line arg Hin. apply elem_of_cons in Hin as [Heq|Hin];
        [done|]. apply list_elem_of_singleton in Hin. by injection Hin as ->.
  - destruct (Z_lt_ge_dec page (lastPage (pagination resp))) as [Hlt|Hge].
    + rewrite (pageLoop_next_page _ _ _ _ st elapsed resp) in Hrun by done.
      apply IH in Hrun
        as (pages & tail & ext & Hrep & Htail & Hcount & -> & Hstop & Htr &
            Hreq & Hdust & Herr).
      exists (resp :: pages), tail. eexists. split_and!.
      * change (length (resp :: pages) + length tail)%nat
          with (S (length pages + length tail)).
        rewrite (modjoReplies_S _ _ _ _ _ _ Hpost). simpl in Hrep.
        by rewrite Hrep.
      * done.
      * simpl. lia.
      * simpl. lia.
      * simpl. by rewrite <- app_assoc.
      * intros [|i] p Hp; simpl in Hp.
        -- injection Hp as <-. rewrite Z.add_0_r. simpl. split; [lia|].
           intros [Hlen ->]. destruct pages; simpl in *; lia.
        -- specialize (Hstop i p Hp).
           replace (page + Z.of_nat (S i))%Z
             with (page + 1 + Z.of_nat i)%Z by lia.
           rewrite Hstop. simpl. split; intros [? ?]; split; (lia || done).
      * rewrite Htr. unfold afterPage. simpl. by rewrite <- app_assoc.
      * rewrite modjoRequests_app, Hreq. simpl.
        change (length (resp :: pages) + length tail)%nat
          with (S (length pages + length tail)).
        by rewrite pagesFrom_S.
      * by rewrite dustRequests_app, Hdust.
      * intros line arg Hin.
        apply elem_of_app in Hin as [Hin|Hin]; [|by eapply Herr].
        apply elem_of_cons in Hin as [Heq|Hin]; [done|].
        by apply list_elem_of_singleton in Hin.
    + rewrite (pageLoop_last_page _ _ _ _ st elapsed resp) in Hrun by done.
      injection Hrun as <- <-. exists [resp], []. eexists. split_and!.
      * change (length [resp] + length [])%nat with 1%nat.
        by rewrite (modjoReplies_S _ _ _ _ _ _ Hpost).
      * simpl. lia.
      * simpl. lia.
      * simpl. lia.
      * simpl. by rewrite app_nil_r.
      * intros [|i] p Hp; [|done]. injection Hp as <-.
        rewrite Z.add_0_r. simpl. split; [done|]. intros _. lia.
      * reflexivity.
      * by rewrite pagesFrom_1.
      * done.
      * intros line arg Hin. apply elem_of_cons in Hin as [Heq|Hin];
          [done|]. by apply list_elem_of_singleton in Hin.
Qed.

Lemma forOf_upserts_ext (ts : list ModjoCallExport) :
  ∀ w, gateOpen w →
  ∃ w' ext,
    forOf ts upsert w = Some (w', Returned tt)
    ∧ gateOpen w'
    ∧ trace w' = (trace w ++ ext)%list
    ∧ modjoRequests ext = []
    ∧ dustRequests ext = request <$> ts
    ∧ (∀ line arg, ConsoleError line arg ∈ ext →
         ∃ t, t ∈ ts ∧
              line = "Error upserting transcript " +:+
                     Number_toString (callId t) +:+ " to Dust datasource:").
Proof.
  induction ts as [|t ts IH]; intros w Hgate.
  - exists w, []. split_and!; try done.
    + by rewrite app_nil_r.
    + intros line arg Hin. by apply elem_of_nil in Hin.
  - destruct (dust_post R (remote w) (request t).1 (request t).2)
      as [[st elapsed] reply] eqn:Hpost.
    destruct (IH (upserted t w st elapsed reply))
      as (w' & ext & Hrun & Hgate' & Htr & Hmodjo & Hdust & Herr);
      [by apply gateOpen_afterUpsert|].
    exists w'. eexists. split_and!.
    + simpl. unfold mbind, M_bind.
      rewrite (upsert_run _ _ t w st elapsed reply); [done| |done].
      destruct Hgate as (-> & -> & _). lia.
    + done.
    + rewrite Htr. unfold afterUpsert. simpl. by rewrite <- app_assoc.
    + rewrite modjoRequests_app, Hmodjo. by destruct reply as [?|[]].
    + rewrite dustRequests_app, Hdust. by destruct reply as [?|[]].
    + intros line arg Hin. apply elem_of_app in Hin as [Hin|Hin].
      * exists t. split; [left|].
        apply elem_of_cons in Hin as [Heq|Hin]; [done|].
        apply list_elem_of_singleton in Hin.
        destruct reply as [error|[]]; simpl in Hin; [|done].
        by injection Hin as -> _.
      * destruct (Herr line arg Hin) as (t' & Ht' & ->).
        exists t'. split; [by right|done].
Qed.

(** Every run of [main] that settles, from a world where the lane is
    free: the pages answered, and the trace in its four parts. *)
Lemma main_trace (fuel : nat) w w' (r : Result unit) :
  gateOpen w →
  script fuel w = Some (w', r) →
  ∃ pages tail ext1 ext2,
    modjoReplies (remote w) 1 (length pages + length tail) =
      ((inr <$> pages) ++ (inl <$> tail))%list
    ∧ (length tail ≤ 1)%nat
    ∧ r = Returned tt
    ∧ trace w' =
        (trace w ++ ext1 ++
         ConsoleLog ("Found " +:+
                     Number_toString
                       (Z.of_nat (length (concat (values <$> pages)))) +:+
                     " transcripts.") ::
         ext2 ++ [ConsoleLog "All transcripts processed successfully."])%list
    ∧ modjoRequests ext1 = pagesFrom 1 (length pages + length tail)
    ∧ dustRequests ext1 = []
    ∧ modjoRequests ext2 = []
    ∧ dustRequests ext2 = request <$> concat (values <$> pages)
    ∧ (∀ line arg, ConsoleError line arg ∈ (ext1 ++ ext2)%list →
         line = "Error fetching Modjo transcripts:" ∨
         ∃ t, line = "Error upserting transcript " +:+
                     Number_toString (callId t) +:+ " to Dust datasource:")
    ∧ StronglySorted (apart 500) (upsertFlights (trace w')).
Proof.
  intros Hgate Hmain.
  destruct (getModjoTranscripts fuel w) as [[w1 r1]|] eqn:Hget;
    [|by unfold main, tryCatch, mbind, M_bind in Hmain;
         rewrite Hget in Hmain].
  pose proof (pageLoop_keeps_gate _ _ _ _ _ _ Hget)
    as (Hlim & Hfl & _ & Hclock & _).
  apply pageLoop_run in Hget as Hpages.
  destruct Hpages
    as (pages & tail & ext1 & Hrep & Htail & _ & -> & _ & Htr1 & Hreq1 &
        Hdust1 & Herr1).
  simpl in Hget. set (ts := concat (values <$> pages)) in *.
  set (found := ConsoleLog ("Found " +:+
                            Number_toString (Z.of_nat (length ts)) +:+
                            " transcripts.")).
  set (w1' := mkWorld (remote w1) (clock w1) (limiter w1)
                      (trace w1 ++ [found])).
  assert (gateOpen w1') as Hgate1.
  { apply (gateOpen_after_pages w); [done..| |done].
    unfold w1'. simpl. rewrite upsertFlights_app. simpl.
    by rewrite app_nil_r. }
  destruct (forOf_upserts_ext ts w1' Hgate1)
    as (w2 & ext2 & Hrun & Hgate2 & Htr2 & Hmodjo2 & Hdust2 & Herr2).
  unfold main, tryCatch, mbind, M_bind in Hmain. rewrite Hget in Hmain.
  unfold console_log at 1 in Hmain. unfold emit in Hmain.
  fold found w1' in Hmain. rewrite Hrun in Hmain.
  unfold console_log, emit in Hmain. injection Hmain as <- <-.
  exists pages, tail, ext1, ext2. split_and!; try done.
  - simpl. rewrite Htr2. unfold w1'. simpl. rewrite Htr1.
    by rewrite <- !app_assoc.
  - intros line arg Hin. apply elem_of_app in Hin as [Hin|Hin].
    + left. by eapply Herr1.
    + right. destruct (Herr2 line arg Hin) as (t & _ & ->). by exists t.
  - simpl. rewrite upsertFlights_app. simpl. rewrite app_nil_r.
    by destruct Hgate2 as (_ & _ & _ & _ & Hsorted).
Qed.




(** X9.  [main] asks Modjo for all its pages before it sends the first
    document to Dust: the trace splits in an extraction without a Dust
    request and a publication without a Modjo request. *)
Theorem main_extracts_before_publishing st (now : N) (fuel : nat) w'
    (r : Result unit) :
  script fuel (boot st now) = Some (w', r) →
  ∃ extraction publication,
    trace w' = (extraction ++ publication)%list
    ∧ dustRequests extraction = []
    ∧ modjoRequests publication = []
    ∧ modjoRequests extraction = modjoRequests (trace w')
    ∧ dustRequests publication = dustRequests (trace w').
Proof.
  intros Hmain.
  destruct (main_trace fuel (boot st now) w' r (gateOpen_boot st now) Hmain)
    as (pages & tail & ext1 & ext2 & _ & _ & _ & Htr & _ & Hd1 & Hm2 & _).
  simpl in Htr. eexists ext1, _. split; [exact Htr|].
  assert (modjoRequests
            (ConsoleLog ("Found " +:+
               Number_toString
                 (Z.of_nat (length (concat (values <$> pages)))) +:+
               " transcripts.") ::
             ext2 ++ [ConsoleLog "All transcripts processed successfully."]) =
          []) as Hm.
  { change (modjoRequests (?e :: ?l)) with (modjoRequests l).
    rewrite modjoRequests_app, Hm2. done. }
  split_and!; [done|done| |].
  - by rewrite Htr, modjoRequests_app, Hm, app_nil_r.
  - by rewrite Htr, dustRequests_app, Hd1.
Qed.

(** X10.  A run of [main] that settles returns normally, its last console
    line is the success line, and the handler of [main] has not written
    its own line: the failures of the two steps are handled in the steps,
    and the script reports success after them as well. *)
Theorem main_always_reports_success st (now : N) (fuel : nat) w'
    (r : Result unit) :
  script fuel (boot st now) = Some (w', r) →
  r = Returned tt
  ∧ last (trace w') =
      Some (ConsoleLog "All transcripts processed successfully.")
  ∧ ∀ arg, ConsoleError "An error occurred:" arg ∉ trace w'.
Proof.
  intros Hmain.
  destruct (main_trace fuel (boot st now) w' r (gateOpen_boot st now) Hmain)
    as (pages & tail & ext1 & ext2 & _ & _ & -> & Htr & _ & _ & _ & _ &
        Herr & _).
  simpl in Htr. split_and!; [done| |].
  - rewrite Htr, app_comm_cons, app_assoc. apply last_snoc.
  - intros arg Hin. rewrite Htr in Hin.
    assert (ConsoleError "An error occurred:" arg ∈ (ext1 ++ ext2)%list)
      as Hin'.
    { apply elem_of_app in Hin as [Hin|Hin]; [set_solver|].
      apply elem_of_cons in Hin as [Heq|Hin]; [done|].
      apply elem_of_app in Hin as [Hin|Hin]; [set_solver|].
      by apply list_elem_of_singleton in Hin. }
    destruct (Herr _ _ Hin') as [Heq|[t Heq]]; [done|].
    rewrite !string_app_cons in Heq. done.
Qed.

(** X11.  When the first request to Modjo fails, the script logs the
    failure, finds 0 transcripts, sends nothing to Dust and still ends on
    the success line. *)
Theorem main_when_first_page_fails st (now : N) (fuel : nat) st' elapsed
    (error : Thrown) :
  modjo_post R st 1 perPage = (st', elapsed, inl error) →
  (1 ≤ fuel)%nat →
  ∃ w',
    script fuel (boot st now) = Some (w', Returned tt)
    ∧ trace w' =
        [HttpPost now (now + elapsed) (ModjoExport 1 perPage) false;
         ConsoleError "Error fetching Modjo transcripts:" (errorArg error);
         ConsoleLog "Found 0 transcripts.";
         ConsoleLog "All transcripts processed successfully."].
Proof.
  intros Hpost Hfuel. destruct fuel as [|fuel]; [lia|].
  eexists. split.
  - unfold main, tryCatch, mbind, M_bind, getModjoTranscripts.
    rewrite (pageLoop_failure fuel 1 [] (boot st now) st' elapsed error)
      by done.
    reflexivity.
  - reflexivity.
Qed.

End PipelineFacts.

(** ** Start-up *)

Lemma truthy_Some (v : option string) :
  truthy v = true → ∃ s, v = Some s ∧ s ≠ "" ∧ default "" v = s.
Proof.
  destruct v as [s|]; [|done]. simpl. intros Hs. exists s.
  split_and!; [done| |done]. intros ->. done.
Qed.

Lemma loadConfig_inl (env : gmap string string) (error : Thrown) :
  loadConfig env = inl error ↔
  (∃ k, k ∈ requiredSettings ∧ truthy (env !! k) = false) ∧
  error = OtherError missingConfigMessage.
Proof.
  unfold loadConfig, requiredSettings.
  destruct (truthy (env !! "MODJO_API_KEY")) eqn:H1,
           (truthy (env !! "DUST_API_KEY")) eqn:H2,
           (truthy (env !! "DUST_WORKSPACE_ID")) eqn:H3,
           (truthy (env !! "DUST_DATASOURCE_ID")) eqn:H4; simpl.
  1: { split; [done|]. intros [(k & Hk & Hf) _].
       repeat (apply elem_of_cons in Hk as [->|Hk]; [congruence|]).
       by apply elem_of_nil in Hk. }
  all: split; [intros [= <-]; split; [|done]|by intros [_ ->]].
  all: eexists; split; [|eassumption]; set_solver.
Qed.

Lemma loadConfig_inr (env : gmap string string) (config : Config.t) :
  loadConfig env = inr config →
  env !! "DUST_WORKSPACE_ID" = Some (Config.DUST_WORKSPACE_ID config) ∧
  env !! "DUST_DATASOURCE_ID" = Some (Config.DUST_DATASOURCE_ID config) ∧
  Config.DUST_WORKSPACE_ID config ≠ "" ∧
  Config.DUST_DATASOURCE_ID config ≠ "".
Proof.
  unfold loadConfig.
  destruct (truthy (env !! "MODJO_API_KEY")) eqn:H1,
           (truthy (env !! "DUST_API_KEY")) eqn:H2,
           (truthy (env !! "DUST_WORKSPACE_ID")) eqn:H3,
           (truthy (env !! "DUST_DATASOURCE_ID")) eqn:H4; simpl; try done.
  intros [= <-]. simpl.
  destruct (truthy_Some _ H3) as (ws & -> & Hws & _).
  destruct (truthy_Some _ H4) as (ds & -> & Hds & _). done.
Qed.

(** X12.  The module throws exactly when one of the four required settings
    is missing or empty; it then throws the configuration error before
    anything else has run (no request, no console line).  [main] itself
    never throws. *)
Theorem program_throws_only_on_missing_setting {R : Remote}
    (env : gmap string string) (fuel : nat) (st : St R) (now : N)
    (w' : World R) (error : Thrown) :
  program env fuel st now = Some (w', Threw error) ↔
  (∃ k, k ∈ requiredSettings ∧ truthy (env !! k) = false) ∧
  w' = boot st now ∧ error = OtherError missingConfigMessage.
Proof.
  unfold program. destruct (loadConfig env) as [e|config] eqn:Hload.
  - apply loadConfig_inl in Hload as [Hmiss ->]. split.
    + by intros [= <- <-].
    + by intros (_ & -> & ->).
  - split.
    + intros Hmain.
      destruct (main_trace _ _ fuel (boot st now) w' (Threw error)
                  (gateOpen_boot st now) Hmain)
        as (_ & _ & _ & _ & _ & _ & Habs & _). done.
    + intros (Hmiss & _ & _).
      assert (loadConfig env = inl (OtherError missingConfigMessage)) as Habs
        by by apply loadConfig_inl.
      congruence.
Qed.

(** X13.  When the script has run, every document went to the workspace
    and datasource that the environment names, at the path of its call
    id, with the rendered document as text. *)
Theorem program_upserts_to_configured_datasource {R : Remote}
    (env : gmap string string) (fuel : nat) (st : St R) (now : N)
    (w' : World R) :
  program env fuel st now = Some (w', Returned tt) →
  ∃ ws ds,
    env !! "DUST_WORKSPACE_ID" = Some ws ∧ ws ≠ "" ∧
    env !! "DUST_DATASOURCE_ID" = Some ds ∧ ds ≠ "" ∧
    ∀ path text,
      (path, text) ∈ dustRequests (trace w') →
      ∃ t, path = "/w/" +:+ ws +:+ "/data_sources/" +:+ ds +:+
                  "/documents/modjo-transcript-" +:+
                  Number_toString (callId t) ∧
           text = documentText t.
Proof.
  unfold program. destruct (loadConfig env) as [e|config] eqn:Hload; [done|].
  apply loadConfig_inr in Hload as (Hws & Hds & Hws' & Hds').
  intros Hmain.
  exists (Config.DUST_WORKSPACE_ID config), (Config.DUST_DATASOURCE_ID config).
  split_and!; [done..|].
  destruct (main_trace _ _ fuel (boot st now) w' (Returned tt)
              (gateOpen_boot st now) Hmain)
    as (pages & tail & ext1 & ext2 & _ & _ & _ & Htr & _ & Hd1 & _ & Hd2 & _).
  intros path text Hin. rewrite Htr in Hin. simpl in Hin.
  rewrite dustRequests_app, Hd1 in Hin. simpl in Hin.
  change (dustRequests (?e :: ?l)) with (dustRequests l) in Hin.
  rewrite dustRequests_app, Hd2 in Hin. simpl in Hin.
  rewrite app_nil_r in Hin.
  apply list_elem_of_fmap in Hin as (t & Heq & _).
  exists t. unfold upsertRequest, documentPath, documentId in Heq.
  by injection Heq as -> ->.
Qed.

(** ** Further examples *)

Lemma safeSeconds_3630 : safeSeconds 3630.
Proof. split_and!; by vm_compute. Qed.

Lemma formatTime_same_iff_same_second_witness :
  formatTime (Finite (7261 # 2)%Q) = formatTime (Finite 3630%Q) ∧
  formatTime (Finite 3630%Q) ≠ formatTime (Finite 3631%Q).
Proof.
  split.
  - apply (formatTime_same_iff_same_second (7261 # 2) 3630);
      [split_and!; by vm_compute..|reflexivity].
  - intros Heq.
    apply (formatTime_same_iff_same_second 3630 3631) in Heq;
      [discriminate Heq|split_and!; by vm_compute..].
Defined.

Lemma formatTime_width_witness :
  (5 ≤ String.length (formatTime (Finite 125%Q)))%nat ∧
  String.get 2 (formatTime (Finite 125%Q)) = Some ":"%char.
Proof.
  destruct (formatTime_width 125) as (Hmin & Hshort & _);
    [split_and!; by vm_compute|].
  split; [exact Hmin|]. apply Hshort. by vm_compute.
Defined.


Lemma upsert_paths_distinct_witness :
  NoDup ((upsertRequest "ws" "ds" <$> Demo.calls).*1).
Proof.
  apply upsert_paths_distinct. apply (bool_decide_unpack _). by vm_compute.
Defined.

Lemma demo_program :
  ∃ w', program Demo_env 3 (0%Z : St Demo.remote) 0%N =
          Some (w', Returned tt).
Proof. eexists. vm_compute. reflexivity. Qed.




Lemma main_extracts_before_publishing_witness :
  ∃ w' extraction publication,
    main "ws" "ds" 3 (@boot Demo.remote 0%Z 0%N) = Some (w', Returned tt) ∧
    trace w' = (extraction ++ publication)%list ∧
    dustRequests extraction = [] ∧ modjoRequests publication = [].
Proof.
  destruct demo_run as (w' & Hmain).
  destruct (main_extracts_before_publishing (R:=Demo.remote) "ws" "ds"
              0%Z 0%N 3 w' _ Hmain)
    as (tr1 & tr2 & Htr & Hd & Hm & _).
  exists w', tr1, tr2. split_and!; [exact Hmain|exact Htr|exact Hd|exact Hm].
Defined.

Lemma main_always_reports_success_witness :
  ∃ w',
    main "ws" "ds" 3 (@boot Demo.remote 0%Z 0%N) = Some (w', Returned tt) ∧
    last (trace w') =
      Some (ConsoleLog "All transcripts processed successfully.").
Proof.
  destruct demo_run as (w' & Hmain).
  destruct (main_always_reports_success (R:=Demo.remote) "ws" "ds" 0%Z 0%N 3
              w' _ Hmain)
    as (_ & Hlast & _).
  exists w'. split; [exact Hmain|exact Hlast].
Defined.

Lemma main_when_first_page_fails_witness :
  ∃ w',
    main "ws" "ds" 1 (@boot Demo.remote 1%Z 0%N) = Some (w', Returned tt) ∧
    trace w' =
      [HttpPost 0 120 (ModjoExport 1 50) false;
       ConsoleError "Error fetching Modjo transcripts:"
         (ErrorValue (AxiosError None));
       ConsoleLog "Found 0 transcripts.";
       ConsoleLog "All transcripts processed successfully."].
Proof.
  apply (main_when_first_page_fails (R:=Demo.remote) "ws" "ds" 1%Z 0%N 1
           1%Z 120%N (AxiosError None)); [reflexivity|lia].
Defined.

Lemma program_throws_only_on_missing_setting_witness :
  program ∅ 3 (0%Z : St Demo.remote) 0%N =
    Some (@boot Demo.remote 0%Z 0%N, Threw (OtherError missingConfigMessage)).
Proof.
  apply program_throws_only_on_missing_setting. split_and!; [|done..].
  exists "DUST_API_KEY". split; [set_solver|done].
Defined.

Lemma program_upserts_to_configured_datasource_witness :
  ∃ w',
    program Demo_env 3 (0%Z : St Demo.remote) 0%N = Some (w', Returned tt) ∧
    ∀ path text,
      (path, text) ∈ dustRequests (trace w') →
      ∃ t, path = "/w/ws/data_sources/ds/documents/modjo-transcript-" +:+
                  Number_toString (callId t) ∧
           text = documentText t.
Proof.
  destruct demo_program as (w' & Hrun). exists w'. split; [exact Hrun|].
  destruct (program_upserts_to_configured_datasource Demo_env 3 _ _ w' Hrun)
    as (ws & ds & Hws & _ & Hds & _ & Hpaths).
  assert (ws = "ws") as -> by (vm_compute in Hws; congruence).
  assert (ds = "ds") as -> by (vm_compute in Hds; congruence).
  exact Hpaths.
Defined.
